(** * Blok: a pass-through FUSE filesystem (src/src/blokfs.c)

    The driver forwards every FUSE operation to the matching POSIX call on
    the underlying root directory.  The handlers are embedded below as
    functions in a small state monad: the state carries the thread's
    [errno], the private data of the mount ([BLOK_DATA]), the list of
    system calls issued so far and the state of the underlying kernel, which
    is a parameter of the development. *)

From Stdlib Require Import ZArith Lia List Bool.
From Stdlib Require Import Strings.Byte Strings.String.
From stdpp Require Import base list.

Local Open Scope Z_scope.

(** ** C integers

    [int] is 32 bits wide and signed, [size_t] and the [uint64_t] of
    [fuse_file_info.fh] are 64 bits wide and unsigned.  Values are carried
    as [Z]; every conversion the C code performs is written out. *)

Definition INT_MIN : Z := - 2 ^ 31.
Definition INT_MAX : Z := 2 ^ 31 - 1.
Definition SIZE_MAX : Z := 2 ^ 64 - 1.

(** Conversion to [int] (two's complement truncation). *)
Definition to_int (z : Z) : Z := (z + 2 ^ 31) mod 2 ^ 32 - 2 ^ 31.

(** Conversion to [uint64_t] / [size_t] / [uintptr_t]. *)
Definition to_uint64 (z : Z) : Z := z mod 2 ^ 64.

(** Unary minus on [int]. *)
Definition int_neg (z : Z) : Z := to_int (- z).

Definition is_int (z : Z) : Prop := INT_MIN <= z <= INT_MAX.

(** Error numbers used by name in the source (values of <errno.h>). *)
Definition ENOENT : Z := 2.
Definition EBADF : Z := 9.
Definition ENOMEM : Z := 12.
Definition EEXIST : Z := 17.
Definition ENOSYS : Z := 38.

(** ** C strings and character arrays

    A [char] array is a list of bytes of fixed length.  A [const char *]
    argument is a list of bytes read up to its first NUL (or up to its end
    when it holds none). *)

Definition NUL : byte := "000"%byte.

Definition is_nul (b : byte) : bool := Byte.eqb b NUL.

(** The string held by a C pointer: the bytes before the first NUL. *)
Fixpoint c_str (a : list byte) : list byte :=
  match a with
  | [] => []
  | b :: a' => if is_nul b then [] else b :: c_str a'
  end.

Definition strlen (a : list byte) : nat := length (c_str a).

(** Index of the terminator inside an array, if it has one. *)
Fixpoint find_nul (a : list byte) : option nat :=
  match a with
  | [] => None
  | b :: a' => if is_nul b then Some 0%nat else option_map S (find_nul a')
  end.

(** Store [bs] into array [a] from index [i]; [None] when the store runs
    past the end of the array. *)
Definition write_at (a : list byte) (i : nat) (bs : list byte) : option (list byte) :=
  if (i + length bs <=? length a)%nat
  then Some (take i a ++ bs ++ drop (i + length bs) a)
  else None.

(** [strcpy(dst, src)]: copies the string and its terminator. *)
Definition strcpy (dst src : list byte) : option (list byte) :=
  write_at dst 0 (c_str src ++ [NUL]).

(** [strncat(dst, src, n)]: appends at most [n] bytes of [src] at the
    terminator of [dst], then a terminator. *)
Definition strncat (dst src : list byte) (n : nat) : option (list byte) :=
  match find_nul dst with
  | None => None
  | Some i => write_at dst i (take n (c_str src) ++ [NUL])
  end.

(** [strcmp(a, b)]: sign of the first difference, bytes compared as
    unsigned chars. *)
Fixpoint strcmp_aux (a b : list byte) : Z :=
  match a, b with
  | [], [] => 0
  | [], _ :: _ => -1
  | _ :: _, [] => 1
  | x :: a', y :: b' =>
      if Byte.eqb x y then strcmp_aux a' b'
      else if (Byte.to_N x <? Byte.to_N y)%N then -1 else 1
  end.

Definition strcmp (a b : list byte) : Z := strcmp_aux (c_str a) (c_str b).

(** A string literal as a byte list. *)
Definition lit (s : string) : list byte := list_byte_of_string s.

(** ** Constants of the system headers

    <sys/stat.h> file-type bits and <fcntl.h> open flags, with their Linux
    values. *)

Definition S_IFMT : Z := 61440.   (* 0170000 *)
Definition S_IFREG : Z := 32768.  (* 0100000 *)
Definition S_IFIFO : Z := 4096.   (* 0010000 *)
Definition S_IFCHR : Z := 8192.   (* 0020000 *)

Definition S_ISREG (mode : Z) : bool := Z.land mode S_IFMT =? S_IFREG.
Definition S_ISFIFO (mode : Z) : bool := Z.land mode S_IFMT =? S_IFIFO.

Definition O_RDONLY : Z := 0.
Definition O_WRONLY : Z := 1.
Definition O_CREAT : Z := 64.     (* 0100 *)
Definition O_EXCL : Z := 128.     (* 0200 *)

(** ** Structures exchanged with the kernel and with FUSE *)

Record stat := {
  st_dev : Z; st_ino : Z; st_mode : Z; st_nlink : Z;
  st_uid : Z; st_gid : Z; st_rdev : Z; st_size : Z;
  st_atime : Z; st_mtime : Z; st_ctime : Z
}.

Record statvfs_t := {
  f_bsize : Z; f_blocks : Z; f_bfree : Z; f_bavail : Z;
  f_files : Z; f_ffree : Z; f_namemax : Z
}.

Record utimbuf := { actime : Z; modtime : Z }.

Record dirent := { d_ino : Z; d_name : list byte }.

(** The two fields of [struct fuse_file_info] the driver touches: [flags]
    is an [int], [fh] a [uint64_t]. *)
Record fuse_file_info := { flags : Z; fh : Z }.

(** [struct fs_state] (include/params.h), with the log stream that
    [log_msg] writes to.  A log line keeps the three values printed by
    [blok_read]. *)
Record log_line := { log_filename : list byte; log_offset : Z; log_size : Z }.

Record fs_state := { rootdir : list byte; logfile : list log_line }.

(** ** System calls

    Every library call the handlers make on the underlying filesystem, with
    the arguments as the kernel receives them (paths as strings). *)

Inductive syscall : Type :=
| Lstat (fpath : list byte)
| Readlink (fpath : list byte) (bufsiz : Z)
| Open (fpath : list byte) (oflags : Z) (mode : option Z)
| Close (fd : Z)
| Mkfifo (fpath : list byte) (mode : Z)
| Mknod (fpath : list byte) (mode dev : Z)
| Mkdir (fpath : list byte) (mode : Z)
| Unlink (fpath : list byte)
| Rmdir (fpath : list byte)
| Symlink (target linkpath : list byte)
| Rename (oldpath newpath : list byte)
| Link (oldpath newpath : list byte)
| Chmod (fpath : list byte) (mode : Z)
| Chown (fpath : list byte) (uid gid : Z)
| Truncate (fpath : list byte) (newsize : Z)
| Utime (fpath : list byte) (ubuf : option utimbuf)
| Pread (fd : Z) (count offset : Z)
| Pwrite (fd : Z) (data : list byte) (count offset : Z)
| Statvfs (fpath : list byte)
| Fdatasync (fd : Z)
| Fsync (fd : Z)
| Lsetxattr (fpath name value : list byte) (size xflags : Z)
| Lgetxattr (fpath name : list byte) (size : Z)
| Llistxattr (fpath : list byte) (size : Z)
| Lremovexattr (fpath name : list byte)
| Opendir (fpath : list byte)
| Readdir (dp : Z)
| Closedir (dp : Z)
| Access (fpath : list byte) (mask : Z)
| Ftruncate (fd : Z) (len : Z)
| Fstat (fd : Z).

(** What a call yields when it succeeds.  [Readlink] yields the contents of
    the link and [Pread] the bytes at the offset (the library wrappers below
    cut them to the size asked for); [Readdir] yields [None] at the end of
    the stream. *)
Definition reply (c : syscall) : Type :=
  match c with
  | Lstat _ | Fstat _ => stat
  | Statvfs _ => statvfs_t
  | Readlink _ _ | Pread _ _ _ | Lgetxattr _ _ _ | Llistxattr _ _ => list byte
  | Open _ _ _ | Opendir _ | Pwrite _ _ _ _ => Z
  | Readdir _ => option dirent
  | _ => unit
  end.

(** The platform the driver is compiled for and runs on: the constants of
    the build and the underlying kernel.  A call either fails with an error
    number ([inl]) or succeeds with its reply ([inr]); both may change the
    kernel's state. *)
Class Platform := {
  PATH_MAX : nat;
  HAVE_FDATASYNC : bool;
  world : Type;
  os_step : forall c : syscall, world -> (Z + reply c) * world
}.

Section Driver.
Context `{P : Platform}.

(** ** Process state and the handler monad *)

Record state := mkState {
  errno : Z;
  BLOK_DATA : fs_state;
  trace : list syscall;
  os : world
}.

(** A handler returns, or its behaviour is undefined (a store outside an
    array), or the model's loop bound is used up. *)
Inductive outcome (A : Type) : Type :=
| Returns (a : A) (s : state)
| Undefined
| OutOfFuel.

Arguments Returns {A} a s.
Arguments Undefined {A}.
Arguments OutOfFuel {A}.

Definition M (A : Type) : Type := state -> outcome A.

Definition ret {A} (a : A) : M A := fun s => Returns a s.

Definition bind {A B} (m : M A) (k : A -> M B) : M B :=
  fun s =>
    match m s with
    | Returns a s' => k a s'
    | Undefined => Undefined
    | OutOfFuel => OutOfFuel
    end.

Notation "x <- c ;; k" := (bind c (fun x => k))
  (at level 100, c at next level, right associativity).
Notation "'let*' p := c 'in' k" := (bind c (fun x => let 'p := x in k))
  (at level 100, p pattern, c at next level, right associativity).

Definition get_errno : M Z := fun s => Returns (errno s) s.

(** An array access: undefined when out of bounds. *)
Definition mem {A} (o : option A) : M A :=
  fun s => match o with Some a => Returns a s | None => Undefined end.

Definition out_of_fuel {A} : M A := fun _ => OutOfFuel.

(** One call into the kernel: the call is recorded, the kernel's state
    advances, and a failure leaves its error number in [errno]. *)
Definition called (c : syscall) (e : Z) (w : world) (s : state) : state :=
  mkState e (BLOK_DATA s) (trace s ++ [c]) w.

Definition kernel (c : syscall) : M (option (reply c)) :=
  fun s =>
    let '(r, w) := os_step c (os s) in
    match r with
    | inl e => Returns None (called c e w s)
    | inr v => Returns (Some v) (called c (errno s) w s)
    end.

(** A call whose only result is its status: 0, or -1 with [errno] set. *)
Definition status (c : syscall) (ok : reply c -> Z) : M Z :=
  r <- kernel c ;;
  ret (match r with Some v => ok v | None => -1 end).

(** ** The library calls, in their C calling convention

    Each wrapper turns the kernel's answer into what the C function hands
    back: the return value, and the bytes stored through pointer
    arguments. *)

Definition lstat (fpath : list byte) : M (Z * option stat) :=
  r <- kernel (Lstat (c_str fpath)) ;;
  ret (match r with Some st => (0, Some st) | None => (-1, None) end).

Definition fstat (fd : Z) : M (Z * option stat) :=
  r <- kernel (Fstat fd) ;;
  ret (match r with Some st => (0, Some st) | None => (-1, None) end).

Definition statvfs (fpath : list byte) : M (Z * option statvfs_t) :=
  r <- kernel (Statvfs (c_str fpath)) ;;
  ret (match r with Some st => (0, Some st) | None => (-1, None) end).

(** [readlink(path, buf, bufsiz)] stores at most [bufsiz] bytes of the link's
    contents, without a terminator, and returns how many it stored. *)
Definition readlink (fpath buf : list byte) (bufsiz : Z) : M (Z * list byte) :=
  r <- kernel (Readlink (c_str fpath) bufsiz) ;;
  match r with
  | None => ret (-1, buf)
  | Some target =>
      let n := Z.min bufsiz (Z.of_nat (length target)) in
      buf' <- mem (write_at buf 0 (take (Z.to_nat n) target)) ;;
      ret (n, buf')
  end.

Definition open (fpath : list byte) (oflags : Z) (mode : option Z) : M Z :=
  status (Open (c_str fpath) oflags mode) (fun fd => fd).

Definition close (fd : Z) : M Z := status (Close fd) (fun _ => 0).

Definition mkfifo (fpath : list byte) (mode : Z) : M Z :=
  status (Mkfifo (c_str fpath) mode) (fun _ => 0).

Definition mknod (fpath : list byte) (mode dev : Z) : M Z :=
  status (Mknod (c_str fpath) mode dev) (fun _ => 0).

Definition mkdir (fpath : list byte) (mode : Z) : M Z :=
  status (Mkdir (c_str fpath) mode) (fun _ => 0).

Definition unlink (fpath : list byte) : M Z :=
  status (Unlink (c_str fpath)) (fun _ => 0).

Definition rmdir (fpath : list byte) : M Z :=
  status (Rmdir (c_str fpath)) (fun _ => 0).

Definition symlink (target linkpath : list byte) : M Z :=
  status (Symlink (c_str target) (c_str linkpath)) (fun _ => 0).

Definition rename (oldpath newpath : list byte) : M Z :=
  status (Rename (c_str oldpath) (c_str newpath)) (fun _ => 0).

Definition link (oldpath newpath : list byte) : M Z :=
  status (Link (c_str oldpath) (c_str newpath)) (fun _ => 0).

Definition chmod (fpath : list byte) (mode : Z) : M Z :=
  status (Chmod (c_str fpath) mode) (fun _ => 0).

Definition chown (fpath : list byte) (uid gid : Z) : M Z :=
  status (Chown (c_str fpath) uid gid) (fun _ => 0).

Definition truncate (fpath : list byte) (newsize : Z) : M Z :=
  status (Truncate (c_str fpath) newsize) (fun _ => 0).

Definition utime (fpath : list byte) (ubuf : option utimbuf) : M Z :=
  status (Utime (c_str fpath) ubuf) (fun _ => 0).

(** [pread] stores at most [count] bytes and returns how many. *)
Definition pread (fd : Z) (buf : list byte) (count offset : Z) : M (Z * list byte) :=
  r <- kernel (Pread fd count offset) ;;
  match r with
  | None => ret (-1, buf)
  | Some data =>
      let n := Z.min count (Z.of_nat (length data)) in
      buf' <- mem (write_at buf 0 (take (Z.to_nat n) data)) ;;
      ret (n, buf')
  end.

Definition pwrite (fd : Z) (buf : list byte) (count offset : Z) : M Z :=
  let n := Z.min count (Z.of_nat (length buf)) in
  status (Pwrite fd (take (Z.to_nat n) buf) count offset) (fun written => written).

Definition fdatasync (fd : Z) : M Z := status (Fdatasync fd) (fun _ => 0).

Definition fsync (fd : Z) : M Z := status (Fsync fd) (fun _ => 0).

Definition lsetxattr (fpath name value : list byte) (size xflags : Z) : M Z :=
  let n := Z.min size (Z.of_nat (length value)) in
  status (Lsetxattr (c_str fpath) (c_str name) (take (Z.to_nat n) value) size xflags)
         (fun _ => 0).

(** With [size = 0] the two calls below only report the size needed. *)
Definition lgetxattr (fpath name value : list byte) (size : Z) : M (Z * list byte) :=
  r <- kernel (Lgetxattr (c_str fpath) (c_str name) size) ;;
  match r with
  | None => ret (-1, value)
  | Some v =>
      if size =? 0 then ret (Z.of_nat (length v), value)
      else (value' <- mem (write_at value 0 v) ;; ret (Z.of_nat (length v), value'))
  end.

Definition llistxattr (fpath names : list byte) (size : Z) : M (Z * list byte) :=
  r <- kernel (Llistxattr (c_str fpath) size) ;;
  match r with
  | None => ret (-1, names)
  | Some v =>
      if size =? 0 then ret (Z.of_nat (length v), names)
      else (names' <- mem (write_at names 0 v) ;; ret (Z.of_nat (length v), names'))
  end.

Definition lremovexattr (fpath name : list byte) : M Z :=
  status (Lremovexattr (c_str fpath) (c_str name)) (fun _ => 0).

(** [opendir] returns the stream's address, [NULL] (0) on failure. *)
Definition opendir (fpath : list byte) : M Z :=
  r <- kernel (Opendir (c_str fpath)) ;;
  ret (match r with Some dp => dp | None => 0 end).

(** [readdir] returns [NULL] both at the end of the stream, where [errno]
    is left as it was, and on failure, where it is set. *)
Definition readdir (dp : Z) : M (option dirent) :=
  r <- kernel (Readdir dp) ;;
  ret (match r with Some (Some de) => Some de | _ => None end).

Definition closedir (dp : Z) : M Z := status (Closedir dp) (fun _ => 0).

Definition access (fpath : list byte) (mask : Z) : M Z :=
  status (Access (c_str fpath) mask) (fun _ => 0).

Definition ftruncate (fd : Z) (len : Z) : M Z :=
  status (Ftruncate fd len) (fun _ => 0).

(** [a[i] = b]. *)
Definition store (a : list byte) (i : Z) (b : byte) : option (list byte) :=
  if (0 <=? i) && (i <? Z.of_nat (length a))
  then Some (<[Z.to_nat i := b]> a)
  else None.

(** A local [char name[n]]; the handlers fill it before reading it. *)
Definition char_array (n : nat) : list byte := replicate n NUL.

(** ** The driver (src/src/blokfs.c) *)

Definition log_msg (l : log_line) : M unit :=
  fun s =>
    let d := BLOK_DATA s in
    Returns tt (mkState (errno s)
                        {| rootdir := rootdir d; logfile := logfile d ++ [l] |}
                        (trace s) (os s)).

Definition blok_fullpath (fpath path : list byte) : M (list byte) :=
  fun s =>
    (fpath <- mem (strcpy fpath (rootdir (BLOK_DATA s))) ;;
     mem (strncat fpath path PATH_MAX)) s.

Definition wrap_return_code (real_code : Z) : M Z :=
  if real_code <? 0 then
    (e <- get_errno ;; ret (int_neg e))
  else ret real_code.

Definition blok_getattr (path : list byte) : M (Z * option stat) :=
  fpath <- blok_fullpath (char_array PATH_MAX) path ;;
  let* (r, statbuf) := lstat fpath in
  rc <- wrap_return_code r ;;
  ret (rc, statbuf).

Definition blok_readlink (path link : list byte) (size : Z) : M (Z * list byte) :=
  fpath <- blok_fullpath (char_array PATH_MAX) path ;;
  let* (n, link) := readlink fpath link (to_uint64 (size - 1)) in
  retstat <- wrap_return_code (to_int n) ;;
  if 0 <=? retstat then
    (link <- mem (store link retstat NUL) ;;
     ret (0, link))
  else ret (retstat, link).

Definition blok_mknod (path : list byte) (mode dev : Z) : M Z :=
  fpath <- blok_fullpath (char_array PATH_MAX) path ;;
  if S_ISREG mode then
    (fd <- open fpath (Z.lor (Z.lor O_CREAT O_EXCL) O_WRONLY) (Some mode) ;;
     retstat <- wrap_return_code fd ;;
     if 0 <=? retstat then
       (r <- close retstat ;; wrap_return_code r)
     else ret retstat)
  else if S_ISFIFO mode then
    (r <- mkfifo fpath mode ;; wrap_return_code r)
  else
    (r <- mknod fpath mode dev ;; wrap_return_code r).

Definition blok_mkdir (path : list byte) (mode : Z) : M Z :=
  fpath <- blok_fullpath (char_array PATH_MAX) path ;;
  r <- mkdir fpath mode ;;
  wrap_return_code r.

Definition blok_unlink (path : list byte) : M Z :=
  fpath <- blok_fullpath (char_array PATH_MAX) path ;;
  r <- unlink fpath ;;
  wrap_return_code r.

Definition blok_rmdir (path : list byte) : M Z :=
  fpath <- blok_fullpath (char_array PATH_MAX) path ;;
  r <- rmdir fpath ;;
  wrap_return_code r.

(** [path] is where the link points and is left as it is; [link] is the
    link itself and is placed under the root. *)
Definition blok_symlink (path link : list byte) : M Z :=
  flink <- blok_fullpath (char_array PATH_MAX) link ;;
  r <- symlink path flink ;;
  wrap_return_code r.

Definition blok_rename (path newpath : list byte) : M Z :=
  fpath <- blok_fullpath (char_array PATH_MAX) path ;;
  fnewpath <- blok_fullpath (char_array PATH_MAX) newpath ;;
  r <- rename fpath fnewpath ;;
  wrap_return_code r.

Definition blok_link (path newpath : list byte) : M Z :=
  fpath <- blok_fullpath (char_array PATH_MAX) path ;;
  fnewpath <- blok_fullpath (char_array PATH_MAX) newpath ;;
  r <- link fpath fnewpath ;;
  wrap_return_code r.

Definition blok_chmod (path : list byte) (mode : Z) : M Z :=
  fpath <- blok_fullpath (char_array PATH_MAX) path ;;
  r <- chmod fpath mode ;;
  wrap_return_code r.

Definition blok_chown (path : list byte) (uid gid : Z) : M Z :=
  fpath <- blok_fullpath (char_array PATH_MAX) path ;;
  r <- chown fpath uid gid ;;
  wrap_return_code r.

Definition blok_truncate (path : list byte) (newsize : Z) : M Z :=
  fpath <- blok_fullpath (char_array PATH_MAX) path ;;
  r <- truncate fpath newsize ;;
  wrap_return_code r.

Definition blok_utime (path : list byte) (ubuf : option utimbuf) : M Z :=
  fpath <- blok_fullpath (char_array PATH_MAX) path ;;
  r <- utime fpath ubuf ;;
  wrap_return_code r.

Definition blok_open (path : list byte) (fi : fuse_file_info) : M (Z * fuse_file_info) :=
  fpath <- blok_fullpath (char_array PATH_MAX) path ;;
  r <- open fpath (flags fi) None ;;
  fd <- wrap_return_code r ;;
  let fi := {| flags := flags fi; fh := to_uint64 fd |} in
  if fd <? 0 then
    (e <- get_errno ;; ret (int_neg e, fi))
  else ret (0, fi).

Definition blok_read (path buf : list byte) (size offset : Z) (fi : fuse_file_info)
  : M (Z * list byte) :=
  _ <- log_msg {| log_filename := c_str path; log_offset := offset; log_size := size |} ;;
  let* (n, buf) := pread (to_int (fh fi)) buf size offset in
  rc <- wrap_return_code (to_int n) ;;
  ret (rc, buf).

Definition blok_write (path buf : list byte) (size offset : Z) (fi : fuse_file_info) : M Z :=
  n <- pwrite (to_int (fh fi)) buf size offset ;;
  wrap_return_code (to_int n).

Definition blok_statfs (path : list byte) : M (Z * option statvfs_t) :=
  fpath <- blok_fullpath (char_array PATH_MAX) path ;;
  let* (r, statv) := statvfs fpath in
  rc <- wrap_return_code r ;;
  ret (rc, statv).

Definition blok_flush (path : list byte) (fi : fuse_file_info) : M Z :=
  ret 0.

Definition blok_release (path : list byte) (fi : fuse_file_info) : M Z :=
  r <- close (to_int (fh fi)) ;;
  wrap_return_code r.

Definition blok_fsync (path : list byte) (datasync : Z) (fi : fuse_file_info) : M Z :=
  if HAVE_FDATASYNC && negb (datasync =? 0) then
    (r <- fdatasync (to_int (fh fi)) ;; wrap_return_code r)
  else
    (r <- fsync (to_int (fh fi)) ;; wrap_return_code r).

(** The four handlers below are compiled when HAVE_SYS_XATTR_H is set. *)

Definition blok_setxattr (path name value : list byte) (size xflags : Z) : M Z :=
  fpath <- blok_fullpath (char_array PATH_MAX) path ;;
  r <- lsetxattr fpath name value size xflags ;;
  wrap_return_code r.

Definition blok_getxattr (path name value : list byte) (size : Z) : M (Z * list byte) :=
  fpath <- blok_fullpath (char_array PATH_MAX) path ;;
  let* (n, value) := lgetxattr fpath name value size in
  rc <- wrap_return_code (to_int n) ;;
  ret (rc, value).

Definition blok_listxattr (path names : list byte) (size : Z) : M (Z * list byte) :=
  fpath <- blok_fullpath (char_array PATH_MAX) path ;;
  let* (n, names) := llistxattr fpath names size in
  rc <- wrap_return_code (to_int n) ;;
  ret (rc, names).

Definition blok_removexattr (path name : list byte) : M Z :=
  fpath <- blok_fullpath (char_array PATH_MAX) path ;;
  r <- lremovexattr fpath name ;;
  wrap_return_code r.

Definition blok_opendir (path : list byte) (fi : fuse_file_info) : M (Z * fuse_file_info) :=
  fpath <- blok_fullpath (char_array PATH_MAX) path ;;
  dp <- opendir fpath ;;
  let fi := {| flags := flags fi; fh := to_uint64 dp |} in
  if dp =? 0 then
    (e <- get_errno ;; ret (int_neg e, fi))
  else ret (0, fi).

(** The callback FUSE passes to [readdir]: it adds one name to the reply
    buffer and returns non-zero when it cannot. *)
Definition fuse_fill_dir_t (B : Type) : Type :=
  B -> list byte -> option stat -> Z -> Z * B.

(** The [do ... while] loop of [blok_readdir]; [fuel] bounds the number of
    iterations. *)
Fixpoint blok_readdir_loop {B} (fuel : nat) (buf : B) (filler : fuse_fill_dir_t B)
    (dp : Z) (retstat : Z) (de : dirent) : M (Z * B) :=
  match fuel with
  | O => out_of_fuel
  | S fuel' =>
      let '(full, buf) := filler buf (d_name de) None 0 in
      if negb (full =? 0) then ret (int_neg ENOMEM, buf)
      else
        (de <- readdir dp ;;
         match de with
         | Some de => blok_readdir_loop fuel' buf filler dp retstat de
         | None => ret (retstat, buf)
         end)
  end.

Definition blok_readdir {B} (fuel : nat) (path : list byte) (buf : B)
    (filler : fuse_fill_dir_t B) (offset : Z) (fi : fuse_file_info) : M (Z * B) :=
  let retstat := 0 in
  let dp := to_uint64 (fh fi) in
  de <- readdir dp ;;
  match de with
  | None => (e <- get_errno ;; ret (int_neg e, buf))
  | Some de => blok_readdir_loop fuel buf filler dp retstat de
  end.

Definition blok_releasedir (path : list byte) (fi : fuse_file_info) : M Z :=
  _ <- closedir (to_uint64 (fh fi)) ;;
  ret 0.

Definition blok_fsyncdir (path : list byte) (datasync : Z) (fi : fuse_file_info) : M Z :=
  ret 0.

Definition blok_init : M fs_state :=
  fun s => Returns (BLOK_DATA s) s.

Definition blok_destroy (userdata : fs_state) : M unit :=
  ret tt.

Definition blok_access (path : list byte) (mask : Z) : M Z :=
  fpath <- blok_fullpath (char_array PATH_MAX) path ;;
  retstat <- access fpath mask ;;
  if retstat <? 0 then
    (e <- get_errno ;; ret (int_neg e))
  else ret retstat.

Definition blok_ftruncate (path : list byte) (offset : Z) (fi : fuse_file_info) : M Z :=
  retstat <- ftruncate (to_int (fh fi)) offset ;;
  if retstat <? 0 then
    (e <- get_errno ;; ret (int_neg e))
  else ret retstat.

Definition blok_fgetattr (path : list byte) (fi : fuse_file_info) : M (Z * option stat) :=
  if strcmp path (lit "/") =? 0 then
    blok_getattr path
  else
    (let* (retstat, statbuf) := fstat (to_int (fh fi)) in
     if retstat <? 0 then
       (e <- get_errno ;; ret (int_neg e, statbuf))
     else ret (retstat, statbuf)).

(** ** Vocabulary for the statements below *)

(** The real path of a virtual path: the root string followed by the path
    string. *)
Definition real_path (s : state) (path : list byte) : list byte :=
  c_str (rootdir (BLOK_DATA s)) ++ c_str path.

(** The real path and its terminator fit in an array of [PATH_MAX] bytes. *)
Definition path_fits (s : state) (path : list byte) : Prop :=
  (strlen (rootdir (BLOK_DATA s)) + strlen path < PATH_MAX)%nat.

(** The calls a handler made: what it appended to the trace of [s]. *)
Definition calls_of {A} (s : state) (o : outcome A) : list syscall :=
  match o with
  | Returns _ s' => drop (length (trace s)) (trace s')
  | _ => []
  end.

(** Metadata taken from an open descriptor and normalized: [fstat] on the
    handle followed by [wrap_return_code]. *)
Definition fstat_normalized (fi : fuse_file_info) : M (Z * option stat) :=
  let* (r, statbuf) := fstat (to_int (fh fi)) in
  rc <- wrap_return_code r ;;
  ret (rc, statbuf).

End Driver.

Arguments Returns {P A} a s.
Arguments Undefined {P A}.
Arguments OutOfFuel {P A}.

(** ** The FUSE side of [readdir] *)

(** The reply buffer as the list of names added so far, and a callback that
    always has room. *)
Definition fill_dir : fuse_fill_dir_t (list (list byte)) :=
  fun buf name _ _ => (0, buf ++ [name]).

(** A callback that has room for [n] names and then reports a full
    buffer. *)
Definition fill_dir_bounded (n : nat) : fuse_fill_dir_t (list (list byte)) :=
  fun buf name _ _ =>
    if (length buf <? n)%nat then (0, buf ++ [name]) else (1, buf).

(** What the callback makes of a sequence of names: the status of the first
    name it refuses (0 when it takes them all) and the buffer at that
    point. *)
Fixpoint feed {B} (filler : fuse_fill_dir_t B) (buf : B) (names : list (list byte))
  : Z * B :=
  match names with
  | [] => (0, buf)
  | name :: names' =>
      let '(full, buf') := filler buf name None 0 in
      if full =? 0 then feed filler buf' names' else (full, buf')
  end.

(** A stream that delivers [entries] one by one from kernel state [w], then
    signals its end and leaves the kernel in [w_end]. *)
Fixpoint stream_at `{P : Platform} (dp : Z) (entries : list dirent) (w w_end : world)
  : Prop :=
  match entries with
  | [] => os_step (Readdir dp) w = (inr None, w_end)
  | de :: rest =>
      exists w', os_step (Readdir dp) w = (inr (Some de), w') /\
                 stream_at dp rest w' w_end
  end.

(** FUSE listing a directory by calling [readdir] [calls] times on one
    handle, each time with an empty reply buffer; the result collects the
    names the callback accepted, in order. *)
Fixpoint readdir_repeatedly `{P : Platform} (calls fuel : nat) (path : list byte)
    (filler : fuse_fill_dir_t (list (list byte))) (fi : fuse_file_info)
  : M (list (list byte)) :=
  match calls with
  | O => ret []
  | S calls' =>
      bind (blok_readdir fuel path [] filler 0 fi) (fun r =>
      bind (readdir_repeatedly calls' fuel path filler fi) (fun names =>
      ret (snd r ++ names)))
  end.

(** ** A small kernel to run the handlers on

    It knows a list of regular files, a list of symbolic links, the open
    descriptors and the open directory streams.  Descriptors are handed out
    from 0 upwards. *)

#[global] Instance byte_eq_dec : EqDecision byte := Byte.byte_eq_dec.

Record toy_world := {
  toy_files : list (list byte);
  toy_links : list (list byte * list byte);
  toy_fds : list Z;
  toy_dirs : list (Z * list dirent)
}.

Definition toy_stat (mode size : Z) : stat :=
  {| st_dev := 1; st_ino := 1; st_mode := mode; st_nlink := 1;
     st_uid := 0; st_gid := 0; st_rdev := 0; st_size := size;
     st_atime := 0; st_mtime := 0; st_ctime := 0 |}.

Fixpoint toy_lookup {A} (k : list byte) (l : list (list byte * A)) : option A :=
  match l with
  | [] => None
  | (k', v) :: l' => if decide (k = k') then Some v else toy_lookup k l'
  end.

Fixpoint toy_stream (dp : Z) (l : list (Z * list dirent)) : option (list dirent) :=
  match l with
  | [] => None
  | (dp', ds) :: l' => if dp =? dp' then Some ds else toy_stream dp l'
  end.

Fixpoint toy_advance (dp : Z) (l : list (Z * list dirent)) : list (Z * list dirent) :=
  match l with
  | [] => []
  | (dp', ds) :: l' =>
      if dp =? dp' then (dp', tail ds) :: l' else (dp', ds) :: toy_advance dp l'
  end.

(** The lowest descriptor not in use, searched among the first [n]. *)
Fixpoint toy_free_fd (n : nat) (fd : Z) (used : list Z) : Z :=
  match n with
  | O => fd
  | S n' => if existsb (Z.eqb fd) used then toy_free_fd n' (fd + 1) used else fd
  end.

Definition toy_has_file (w : toy_world) (p : list byte) : bool :=
  bool_decide (p ∈ toy_files w).

Definition toy_step (c : syscall) (w : toy_world) : (Z + reply c) * toy_world :=
  match c return (Z + reply c) * toy_world with
  | Lstat p =>
      if toy_has_file w p then (inr (toy_stat S_IFREG 0), w)
      else match toy_lookup p (toy_links w) with
           | Some t => (inr (toy_stat 40960 (Z.of_nat (length t))), w)
           | None => (inl ENOENT, w)
           end
  | Readlink p _ =>
      match toy_lookup p (toy_links w) with
      | Some t => (inr t, w)
      | None => (inl ENOENT, w)
      end
  | Open p oflags _ =>
      let present := toy_has_file w p in
      let creat := negb (Z.land oflags O_CREAT =? 0) in
      let excl := negb (Z.land oflags O_EXCL =? 0) in
      if present && creat && excl then (inl EEXIST, w)
      else if present || creat then
        let fd := toy_free_fd (length (toy_fds w)) 0 (toy_fds w) in
        (inr fd,
         {| toy_files := if present then toy_files w else p :: toy_files w;
            toy_links := toy_links w;
            toy_fds := fd :: toy_fds w; toy_dirs := toy_dirs w |})
      else (inl ENOENT, w)
  | Close fd =>
      if existsb (Z.eqb fd) (toy_fds w) then
        (inr tt, {| toy_files := toy_files w; toy_links := toy_links w;
                    toy_fds := filter (fun x => x <> fd) (toy_fds w);
                    toy_dirs := toy_dirs w |})
      else (inl EBADF, w)
  | Fstat fd =>
      if existsb (Z.eqb fd) (toy_fds w) then (inr (toy_stat S_IFREG 0), w)
      else (inl EBADF, w)
  | Readdir dp =>
      match toy_stream dp (toy_dirs w) with
      | Some ds =>
          (inr (head ds),
           {| toy_files := toy_files w; toy_links := toy_links w;
              toy_fds := toy_fds w; toy_dirs := toy_advance dp (toy_dirs w) |})
      | None => (inl EBADF, w)
      end
  | Closedir dp =>
      match toy_stream dp (toy_dirs w) with
      | Some _ =>
          (inr tt,
           {| toy_files := toy_files w; toy_links := toy_links w;
              toy_fds := toy_fds w;
              toy_dirs := filter (fun x => fst x <> dp) (toy_dirs w) |})
      | None => (inl EBADF, w)
      end
  | Mkfifo _ _ | Mknod _ _ _ | Mkdir _ _ => (inr tt, w)
  | Statvfs _ | Pread _ _ _ | Lgetxattr _ _ _ | Llistxattr _ _
  | Pwrite _ _ _ _ | Opendir _ | Unlink _ | Rmdir _ | Symlink _ _
  | Rename _ _ | Link _ _ | Chmod _ _ | Chown _ _ _ | Truncate _ _
  | Utime _ _ | Fdatasync _ | Fsync _ | Lsetxattr _ _ _ _ _
  | Lremovexattr _ _ | Access _ _ | Ftruncate _ _ => (inl ENOSYS, w)
  end.

Definition toy : Platform :=
  {| PATH_MAX := 4096; HAVE_FDATASYNC := true;
     world := toy_world; os_step := toy_step |}.

(** A mount of /srv holding one file, one symbolic link, and one open
    directory stream (handle 7) with three entries. *)
Definition toy_entries : list dirent :=
  [ {| d_ino := 11; d_name := lit "a" |};
    {| d_ino := 12; d_name := lit "b" |};
    {| d_ino := 13; d_name := lit "c" |} ].

Definition toy_world0 : toy_world :=
  {| toy_files := [lit "/srv/f"];
     toy_links := [(lit "/srv/l", lit "target-of-link")];
     toy_fds := [];
     toy_dirs := [(7, toy_entries)] |}.

(** The same kernel once the stream has been read to its end. *)
Definition toy_world_end : toy_world :=
  {| toy_files := [lit "/srv/f"];
     toy_links := [(lit "/srv/l", lit "target-of-link")];
     toy_fds := [];
     toy_dirs := [(7, [])] |}.

Definition toy_state (e : Z) (w : toy_world) : @state toy :=
  @mkState toy e {| rootdir := lit "/srv"; logfile := [] |} [] w.

Definition toy_state0 : @state toy := toy_state 0 toy_world0.

Definition toy_dir_handle : fuse_file_info := {| flags := 0; fh := 7 |}.


(** ** Reading the kernel's answer

    For a call answered by [r]: the status a normalizing handler returns,
    the [errno] it leaves, and the state after the call. *)

Definition EXIT_FAILURE : Z := 1.

Definition status_code {A} (r : Z + A) (ok : A -> Z) : Z :=
  match r with inl e => - e | inr v => ok v end.

Definition errno_after `{P : Platform} {A} (s : state) (r : Z + A) : Z :=
  match r with inl e => e | inr _ => errno s end.

Definition after `{P : Platform} {A} (c : syscall) (r : Z + A) (w : world) (s : state)
  : state :=
  called c (errno_after s r) w s.

(** What the call stored through its result pointer: nothing on failure. *)
Definition answered {A} (r : Z + A) : option A :=
  match r with inl _ => None | inr v => Some v end.

(** An answer as POSIX gives it: an error number is a positive [int]. *)
Definition posix_answer {A} (r : Z + A) : Prop :=
  match r with inl e => 0 < e <= INT_MAX | inr _ => True end.

(** A handler that leaves the mount's private data as it found it. *)
Definition keeps_session `{P : Platform} {A} (m : M A) : Prop :=
  forall s a s', m s = Returns a s' -> BLOK_DATA s' = BLOK_DATA s.

(** ** Start-up: [main], [blok_usage] and [log_open]

    [main] checks the command line, allocates the private data, resolves the
    root directory, opens the log and hands over to [fuse_main].  What the C
    library and FUSE answer is a parameter; the messages printed on the way
    are left out. *)

Record startup := {
  malloc_ok : bool;
  realpath : list byte -> option (list byte);
  fopen_ok : bool;
  fuse_main : list (list byte) -> option (list byte) -> Z
}.

Inductive termination : Type :=
| Aborted
| Exited (status : Z).

(** [a[0]] of a string argument; the empty string starts with its
    terminator. *)
Definition first_char (a : list byte) : byte := hd NUL a.

Definition blok_usage : termination := Aborted.

Definition log_open (env : startup) : termination + unit :=
  if fopen_ok env then inr tt else inl (Exited EXIT_FAILURE).

Definition main (env : startup) (argv : list (list byte)) : termination :=
  let argc := length argv in
  if (argc <? 3)%nat
     || Byte.eqb (first_char (nth (argc - 2) argv [])) "-"%byte
     || Byte.eqb (first_char (nth (argc - 1) argv [])) "-"%byte
  then blok_usage
  else if negb (malloc_ok env) then Aborted
  else
    let blok_data_rootdir := realpath env (c_str (nth (argc - 2) argv [])) in
    match log_open env with
    | inl stop => stop
    | inr _ =>
        let argv := <[(argc - 2)%nat := nth (argc - 1) argv []]> argv in
        let argv := take (argc - 1) argv in
        let argc := (argc - 1)%nat in
        Exited (fuse_main env argv blok_data_rootdir)
    end.

(** ** A kernel whose directory stream breaks

    Its first [readdir] delivers one entry, every later one fails with EIO;
    the state counts the reads. *)




(** ** A kernel with one file and one directory

    Every [open] yields descriptor 3 on the one file, whose bytes [pread]
    and [pwrite] read and overwrite in place; every [opendir] yields a stream
    over the two entries of the one directory; the one extended attribute
    has the value "blue". *)

Record disk_world := {
  disk_content : list byte;
  disk_stream : list dirent
}.

Definition disk_entries : list dirent :=
  [ {| d_ino := 31; d_name := lit "." |};
    {| d_ino := 32; d_name := lit "notes" |} ].

Definition disk_step (c : syscall) (w : disk_world) : (Z + reply c) * disk_world :=
  match c return (Z + reply c) * disk_world with
  | Open _ _ _ => (inr 3, w)
  | Close _ => (inr tt, w)
  | Pread _ count offset =>
      (inr (take (Z.to_nat count) (drop (Z.to_nat offset) (disk_content w))), w)
  | Pwrite _ data _ offset =>
      (inr (Z.of_nat (length data)),
       {| disk_content :=
            take (Z.to_nat offset) (disk_content w) ++ data ++
            drop (Z.to_nat offset + length data) (disk_content w);
          disk_stream := disk_stream w |})
  | Opendir _ =>
      (inr 4096, {| disk_content := disk_content w; disk_stream := disk_entries |})
  | Readdir _ =>
      (inr (head (disk_stream w)),
       {| disk_content := disk_content w; disk_stream := tail (disk_stream w) |})
  | Closedir _ => (inr tt, w)
  | Lsetxattr _ _ _ _ _ => (inr tt, w)
  | Lgetxattr _ _ _ => (inr (lit "blue"), w)
  | _ => (inl ENOSYS, w)
  end.

Definition disk : Platform :=
  {| PATH_MAX := 4096; HAVE_FDATASYNC := false;
     world := disk_world; os_step := disk_step |}.

Definition disk_world0 : disk_world :=
  {| disk_content := lit "hello, world"; disk_stream := [] |}.

Definition disk_state0 : @state disk :=
  @mkState disk 0 {| rootdir := lit "/srv"; logfile := [] |} [] disk_world0.

(** A start-up environment in which everything succeeds and [fuse_main]
    reports how many arguments it was given. *)
Definition toy_startup : startup :=
  {| malloc_ok := true;
     realpath := fun p => Some (lit "/abs" ++ p);
     fopen_ok := true;
     fuse_main := fun argv _ => Z.of_nat (length argv) |}.

(** * Properties *)

(** ** Integer conversions *)

Lemma to_int_small (z : Z) : is_int z -> to_int z = z.
Proof.
  unfold is_int, INT_MIN, INT_MAX, to_int. intros Hz.
  rewrite Z.mod_small; lia.
Qed.

Lemma int_neg_small (z : Z) : INT_MIN < z <= INT_MAX -> int_neg z = - z.
Proof.
  unfold int_neg, INT_MIN, INT_MAX. intros Hz.
  apply to_int_small. unfold is_int, INT_MIN, INT_MAX. lia.
Qed.

Lemma to_uint64_small (z : Z) : 0 <= z <= SIZE_MAX -> to_uint64 z = z.
Proof.
  unfold to_uint64, SIZE_MAX. intros Hz. apply Z.mod_small. lia.
Qed.

(** An [int] stored in the 64-bit handle slot and read back as an [int] is
    unchanged, also when it is negative. *)
Lemma to_int_to_uint64 (z : Z) : is_int z -> to_int (to_uint64 z) = z.
Proof.
  unfold is_int, INT_MIN, INT_MAX, to_int, to_uint64. intros Hz.
  destruct (Z.neg_nonneg_cases z) as [Hneg|Hpos].
  - replace z with (2 ^ 64 + z + (-1) * 2 ^ 64) at 1 by lia.
    rewrite Z.mod_add by lia.
    rewrite (Z.mod_small (2 ^ 64 + z)) by lia.
    replace (2 ^ 64 + z + 2 ^ 31) with (z + 2 ^ 31 + 2 ^ 32 * 2 ^ 32) by lia.
    rewrite Z.mod_add by lia.
    rewrite Z.mod_small; lia.
  - rewrite (Z.mod_small z) by lia.
    rewrite Z.mod_small; lia.
Qed.

Lemma to_uint64_neg (e : Z) : 0 < e <= INT_MAX -> to_uint64 (- e) = 2 ^ 64 - e.
Proof.
  unfold INT_MAX, to_uint64. intros He.
  replace (- e) with (2 ^ 64 - e + (-1) * 2 ^ 64) by lia.
  rewrite Z.mod_add by lia. apply Z.mod_small. lia.
Qed.

(** ** C strings *)

Lemma is_nul_true (b : byte) : is_nul b = true <-> b = NUL.
Proof.
  unfold is_nul. split.
  - apply Byte.byte_dec_bl.
  - apply Byte.byte_dec_lb.
Qed.

Lemma c_str_no_nul (a : list byte) : NUL ∉ c_str a.
Proof.
  induction a as [|b a IH]; simpl.
  - apply not_elem_of_nil.
  - destruct (is_nul b) eqn:Hb.
    + apply not_elem_of_nil.
    + intros [Heq|Hin]%elem_of_cons; [|auto].
      rewrite <- Heq in Hb. discriminate Hb.
Qed.

Lemma c_str_id (a : list byte) : NUL ∉ a -> c_str a = a.
Proof.
  induction a as [|b a IH]; simpl; intros Hnul; [reflexivity|].
  apply not_elem_of_cons in Hnul as [Hb Ha].
  destruct (is_nul b) eqn:E.
  - apply is_nul_true in E. congruence.
  - f_equal. auto.
Qed.

(** Reading a string that is followed by a terminator gives the string
    back, whatever comes after the terminator. *)
Lemma c_str_terminated (l r : list byte) : NUL ∉ l -> c_str (l ++ NUL :: r) = l.
Proof.
  induction l as [|b l IH]; simpl; intros Hnul.
  - reflexivity.
  - apply not_elem_of_cons in Hnul as [Hb Hl].
    destruct (is_nul b) eqn:E.
    + apply is_nul_true in E. congruence.
    + f_equal. auto.
Qed.

Lemma find_nul_terminated (l r : list byte) :
  NUL ∉ l -> find_nul (l ++ NUL :: r) = Some (length l).
Proof.
  induction l as [|b l IH]; simpl; intros Hnul.
  - reflexivity.
  - apply not_elem_of_cons in Hnul as [Hb Hl].
    destruct (is_nul b) eqn:E.
    + apply is_nul_true in E. congruence.
    + rewrite IH by assumption. reflexivity.
Qed.

Lemma strcmp_aux_eq (a b : list byte) : strcmp_aux a b = 0 <-> a = b.
Proof.
  revert b. induction a as [|x a IH]; intros [|y b]; simpl; try (split; [lia|discriminate]).
  - split; reflexivity.
  - destruct (Byte.eqb x y) eqn:E.
    + apply Byte.byte_dec_bl in E. subst y. rewrite IH.
      split; [intros ->; reflexivity | intros [= ->]; reflexivity].
    + split.
      * destruct (_ <? _)%N; lia.
      * intros [= -> ->]. rewrite Byte.byte_dec_lb in E by reflexivity. discriminate.
Qed.

(** [strcmp] returns 0 exactly on equal strings. *)
Lemma strcmp_eq (a b : list byte) : strcmp a b = 0 <-> c_str a = c_str b.
Proof. apply strcmp_aux_eq. Qed.

Lemma write_at_length (a bs a' : list byte) (i : nat) :
  write_at a i bs = Some a' -> length a' = length a.
Proof.
  unfold write_at. destruct (_ <=? _)%nat eqn:E; [|discriminate].
  apply Nat.leb_le in E. intros [= <-].
  rewrite !length_app, length_take, length_drop. lia.
Qed.

(** ** Path resolution *)

Lemma strcpy_spec (buf src : list byte) :
  (strlen src < length buf)%nat ->
  strcpy buf src = Some (c_str src ++ NUL :: drop (S (strlen src)) buf).
Proof.
  unfold strlen, strcpy, write_at. intros Hlen.
  rewrite length_app. simpl.
  destruct (_ <=? _)%nat eqn:E.
  2:{ apply Nat.leb_gt in E. lia. }
  rewrite <- app_assoc. simpl. rewrite Nat.add_1_r. reflexivity.
Qed.

Lemma strncat_spec (l r src : list byte) (n : nat) :
  NUL ∉ l ->
  (strlen src <= n)%nat ->
  (strlen src <= length r)%nat ->
  strncat (l ++ NUL :: r) src n = Some (l ++ c_str src ++ NUL :: drop (strlen src) r).
Proof.
  unfold strlen, strncat, write_at. intros Hl Hn Hr.
  rewrite find_nul_terminated by exact Hl.
  rewrite take_ge by exact Hn.
  rewrite !length_app. simpl.
  destruct (_ <=? _)%nat eqn:E.
  2:{ apply Nat.leb_gt in E. lia. }
  rewrite take_app_length. rewrite <- app_assoc. simpl.
  do 3 f_equal.
  rewrite drop_app_ge by lia.
  replace (length l + (length (c_str src) + 1) - length l)%nat
    with (S (length (c_str src))) by lia.
  reflexivity.
Qed.

(** [strcpy] followed by [strncat] on an array with room for both strings
    and the terminator leaves their concatenation in the array. *)
Lemma strcpy_strncat (buf root path : list byte) (n : nat) :
  (strlen root + strlen path < length buf)%nat ->
  (strlen path <= n)%nat ->
  exists fpath1 fpath,
    strcpy buf root = Some fpath1 /\
    strncat fpath1 path n = Some fpath /\
    c_str fpath = c_str root ++ c_str path.
Proof.
  intros Hlen Hn.
  eexists. eexists. split; [apply strcpy_spec; lia|].
  split.
  - apply strncat_spec; [apply c_str_no_nul | exact Hn |].
    rewrite length_drop. unfold strlen in *. lia.
  - rewrite app_assoc. apply c_str_terminated.
    intros [H|H]%elem_of_app; eapply c_str_no_nul; exact H.
Qed.

Section Properties.
Context `{P : Platform}.

Implicit Types (s : state) (path fpath : list byte) (fi : fuse_file_info).

(** ** The kernel interface *)

Lemma errno_called (c : syscall) (e : Z) (w : world) s :
  errno (called c e w s) = e.
Proof. reflexivity. Qed.

Lemma trace_called (c : syscall) (e : Z) (w : world) s :
  trace (called c e w s) = trace s ++ [c].
Proof. reflexivity. Qed.

Lemma kernel_fails (c : syscall) s (e : Z) (w : world) :
  os_step c (os s) = (inl e, w) ->
  kernel c s = Returns None (called c e w s).
Proof. unfold kernel. intros ->. reflexivity. Qed.

Lemma kernel_succeeds (c : syscall) s (v : reply c) (w : world) :
  os_step c (os s) = (inr v, w) ->
  kernel c s = Returns (Some v) (called c (errno s) w s).
Proof. unfold kernel. intros ->. reflexivity. Qed.

Lemma status_fails (c : syscall) (ok : reply c -> Z) s (e : Z) (w : world) :
  os_step c (os s) = (inl e, w) ->
  status c ok s = Returns (-1) (called c e w s).
Proof. intros H. unfold status, bind. rewrite (kernel_fails _ _ _ _ H). reflexivity. Qed.

Lemma status_succeeds (c : syscall) (ok : reply c -> Z) s (v : reply c) (w : world) :
  os_step c (os s) = (inr v, w) ->
  status c ok s = Returns (ok v) (called c (errno s) w s).
Proof. intros H. unfold status, bind. rewrite (kernel_succeeds _ _ _ _ H). reflexivity. Qed.

(** ** Path resolver *)

(** The local array of the handlers has room for a path that fits. *)
Lemma fullpath_local s path :
  path_fits s path ->
  exists fpath,
    blok_fullpath (char_array PATH_MAX) path s = Returns fpath s /\
    c_str fpath = real_path s path.
Proof.
  unfold path_fits, real_path. intros Hlen.
  destruct (strcpy_strncat (char_array PATH_MAX) (rootdir (BLOK_DATA s)) path PATH_MAX)
    as (fpath1 & fpath & Hcpy & Hcat & Hstr).
  { unfold char_array. rewrite length_replicate. exact Hlen. }
  { lia. }
  exists fpath. split; [|exact Hstr].
  unfold blok_fullpath, bind, mem. rewrite Hcpy, Hcat. reflexivity.
Qed.

(** C1.  When the root directory and the virtual path fit together in the
    [PATH_MAX] bytes of the array, terminator included, [blok_fullpath]
    returns with the array holding exactly the root string followed by the
    path string: nothing is collapsed, inserted or dropped, whatever the
    array held before and whatever the two strings are, and the process
    state is unchanged. *)
Theorem blok_fullpath_concat s (buf path : list byte) :
  length buf = PATH_MAX ->
  (strlen (rootdir (BLOK_DATA s)) + strlen path < PATH_MAX)%nat ->
  exists fpath,
    blok_fullpath buf path s = Returns fpath s /\
    c_str fpath = c_str (rootdir (BLOK_DATA s)) ++ c_str path.
Proof.
  intros Hbuf Hlen.
  assert (Hroom : (strlen (rootdir (BLOK_DATA s)) + strlen path < length buf)%nat)
    by (rewrite Hbuf; exact Hlen).
  assert (Hn : (strlen path <= PATH_MAX)%nat) by lia.
  destruct (strcpy_strncat buf (rootdir (BLOK_DATA s)) path PATH_MAX Hroom Hn)
    as (fpath1 & fpath & Hcpy & Hcat & Hstr).
  exists fpath. split.
  - unfold blok_fullpath, bind, mem. rewrite Hcpy, Hcat. reflexivity.
  - exact Hstr.
Qed.

(** Beyond that bound the terminator, at the latest, is stored past the end
    of the array: the call has no defined behaviour ("ridiculously long paths
    will break here"). *)
Lemma blok_fullpath_overflow s (buf path : list byte) :
  length buf = PATH_MAX ->
  (PATH_MAX <= strlen (rootdir (BLOK_DATA s)) + strlen path)%nat ->
  blok_fullpath buf path s = Undefined.
Proof.
  intros Hbuf Hlen. unfold blok_fullpath, bind, mem.
  destruct (Nat.lt_ge_cases (strlen (rootdir (BLOK_DATA s))) (length buf)) as [Hroot|Hroot].
  - rewrite (strcpy_spec _ _ Hroot).
    unfold strncat. rewrite find_nul_terminated by apply c_str_no_nul.
    unfold write_at.
    rewrite !length_app, length_take. simpl. rewrite length_drop.
    unfold strlen in *.
    destruct (Nat.leb_spec
                (length (c_str (rootdir (BLOK_DATA s))) +
                 (PATH_MAX `min` length (c_str path) + 1))
                (length (c_str (rootdir (BLOK_DATA s))) +
                 S (length buf - S (length (c_str (rootdir (BLOK_DATA s)))))))
      as [Hle|Hgt]; [lia|reflexivity].
  - unfold strcpy, write_at. rewrite length_app. simpl.
    unfold strlen in *.
    destruct (Nat.leb_spec (length (c_str (rootdir (BLOK_DATA s))) + 1) (length buf));
      [lia|reflexivity].
Qed.

(** ** Result normalizer *)

Lemma wrap_return_code_neg s (real_code : Z) :
  real_code < 0 -> INT_MIN < errno s <= INT_MAX ->
  wrap_return_code real_code s = Returns (- errno s) s.
Proof.
  intros Hr He. unfold wrap_return_code.
  destruct (Z.ltb_spec real_code 0); [|lia].
  unfold bind, get_errno, ret. rewrite int_neg_small by exact He. reflexivity.
Qed.

Lemma wrap_return_code_nonneg s (real_code : Z) :
  0 <= real_code -> wrap_return_code real_code s = Returns real_code s.
Proof.
  intros Hr. unfold wrap_return_code.
  destruct (Z.ltb_spec real_code 0); [lia|]. reflexivity.
Qed.

(** C3.  [wrap_return_code] replaces a negative raw result by the negation
    of [errno] and passes a non-negative one through; the state is not
    touched.  ([errno] is an [int] other than [INT_MIN], whose negation is
    not an [int].) *)
Theorem wrap_return_code_spec s (real_code : Z) :
  INT_MIN < errno s <= INT_MAX ->
  (real_code < 0 -> wrap_return_code real_code s = Returns (- errno s) s) /\
  (0 <= real_code -> wrap_return_code real_code s = Returns real_code s).
Proof.
  intros He. split; intros Hr.
  - apply wrap_return_code_neg; assumption.
  - apply wrap_return_code_nonneg; assumption.
Qed.

(** ** flush *)

(** C9.  [blok_flush] returns 0 for every path and handle and leaves the
    whole state as it found it: no call reaches the kernel, and [errno] and
    the kernel's state are unchanged. *)
Theorem blok_flush_noop s path fi :
  blok_flush path fi s = Returns 0 s /\
  calls_of s (blok_flush path fi s) = [].
Proof.
  split; [reflexivity|].
  unfold blok_flush, ret, calls_of. apply drop_all.
Qed.

(** ** open *)

Lemma blok_open_fails s path fi (e : Z) (w : world) :
  path_fits s path ->
  os_step (Open (real_path s path) (flags fi) None) (os s) = (inl e, w) ->
  0 < e <= INT_MAX ->
  blok_open path fi s =
    Returns (- e, {| flags := flags fi; fh := to_uint64 (- e) |})
            (called (Open (real_path s path) (flags fi) None) e w s).
Proof.
  intros Hfit Hos He.
  destruct (fullpath_local s path Hfit) as (fpath & Hfp & Hstr).
  unfold blok_open, bind. rewrite Hfp. unfold open. rewrite Hstr.
  rewrite (status_fails _ _ _ _ _ Hos).
  rewrite wrap_return_code_neg
    by (rewrite ?errno_called; unfold INT_MIN, INT_MAX in *; lia).
  rewrite !errno_called.
  destruct (Z.ltb_spec (- e) 0); [|lia].
  unfold get_errno, ret. rewrite errno_called.
  rewrite int_neg_small by (unfold INT_MIN, INT_MAX in *; lia).
  reflexivity.
Qed.

Lemma blok_open_succeeds s path fi (fd : Z) (w : world) :
  path_fits s path ->
  os_step (Open (real_path s path) (flags fi) None) (os s) = (inr fd, w) ->
  0 <= fd <= INT_MAX ->
  blok_open path fi s =
    Returns (0, {| flags := flags fi; fh := fd |})
            (called (Open (real_path s path) (flags fi) None) (errno s) w s).
Proof.
  intros Hfit Hos Hfd.
  destruct (fullpath_local s path Hfit) as (fpath & Hfp & Hstr).
  unfold blok_open, bind. rewrite Hfp. unfold open. rewrite Hstr.
  rewrite (status_succeeds _ _ _ _ _ Hos).
  rewrite wrap_return_code_nonneg by lia.
  destruct (Z.ltb_spec fd 0); [lia|].
  rewrite to_uint64_small by (unfold INT_MAX, SIZE_MAX in *; lia).
  reflexivity.
Qed.

(** C6.  [blok_open] stores what it obtained in [fi->fh] before it decides
    between success and failure.  A descriptor returned by [open], 0
    included, ends up in the slot as it is and the handler returns 0.  When
    [open] fails with error [e], the handler returns [-e] and the slot holds
    [-e] converted to the slot's unsigned 64-bit type: a value that is not 0,
    does not depend on what the slot held before, and reads back as the
    negative [int] [-e] wherever the slot is used as a descriptor. *)
Theorem blok_open_handle_slot s path fi :
  path_fits s path ->
  let c := Open (real_path s path) (flags fi) None in
  (forall w, os_step c (os s) = (inr 0, w) ->
     blok_open path fi s =
       Returns (0, {| flags := flags fi; fh := 0 |}) (called c (errno s) w s)) /\
  (forall fd w, os_step c (os s) = (inr fd, w) -> 0 <= fd <= INT_MAX ->
     blok_open path fi s =
       Returns (0, {| flags := flags fi; fh := fd |}) (called c (errno s) w s)) /\
  (forall e w, os_step c (os s) = (inl e, w) -> 0 < e <= INT_MAX ->
     exists slot,
       blok_open path fi s =
         Returns (- e, {| flags := flags fi; fh := slot |}) (called c e w s) /\
       slot = to_uint64 (- e) /\
       slot <> 0 /\
       to_int slot = - e /\
       to_int slot < 0).
Proof.
  intros Hfit c. repeat split.
  - intros w Hos. apply blok_open_succeeds; [assumption..|].
    unfold INT_MAX. lia.
  - intros fd w Hos Hfd. apply blok_open_succeeds; assumption.
  - intros e w Hos He. exists (to_uint64 (- e)).
    split; [apply blok_open_fails; assumption|].
    split; [reflexivity|].
    assert (Hint : to_int (to_uint64 (- e)) = - e).
    { apply to_int_to_uint64. unfold is_int, INT_MIN, INT_MAX in *. lia. }
    rewrite Hint. repeat split; try lia.
    rewrite to_uint64_neg by assumption. unfold INT_MAX in He. lia.
Qed.

(** ** release and releasedir *)

(** [blok_release] hands the failure of [close] on to its caller. *)
Lemma blok_release_surfaces_failure s path fi (e : Z) (w : world) :
  os_step (Close (to_int (fh fi))) (os s) = (inl e, w) ->
  0 < e <= INT_MAX ->
  blok_release path fi s = Returns (- e) (called (Close (to_int (fh fi))) e w s).
Proof.
  intros Hos He. unfold blok_release, bind, close.
  rewrite (status_fails _ _ _ _ _ Hos).
  rewrite wrap_return_code_neg
    by (rewrite ?errno_called; unfold INT_MIN, INT_MAX in *; lia).
  rewrite errno_called. reflexivity.
Qed.

(** C2.  [blok_releasedir] does not: when [closedir] fails with error [e]
    the handler still returns 0, where the claim asks for [-e].  The error
    is left in [errno] and goes no further. *)
Theorem blok_releasedir_swallows_failure s path fi (e : Z) (w : world) :
  os_step (Closedir (to_uint64 (fh fi))) (os s) = (inl e, w) ->
  0 < e <= INT_MAX ->
  blok_releasedir path fi s = Returns 0 (called (Closedir (to_uint64 (fh fi))) e w s) /\
  blok_releasedir path fi s <> Returns (- e) (called (Closedir (to_uint64 (fh fi))) e w s).
Proof.
  intros Hos He.
  assert (H : blok_releasedir path fi s =
              Returns 0 (called (Closedir (to_uint64 (fh fi))) e w s)).
  { unfold blok_releasedir, bind, closedir.
    rewrite (status_fails _ _ _ _ _ Hos). reflexivity. }
  split; [exact H|]. rewrite H. intros [= Habs]. lia.
Qed.

(** ** getattr and fgetattr *)

Lemma c_str_idemp (a : list byte) : c_str (c_str a) = c_str a.
Proof. apply c_str_id, c_str_no_nul. Qed.

(** The handlers see a path argument only as a string. *)
Lemma blok_fullpath_c_str s (buf path : list byte) :
  blok_fullpath buf (c_str path) s = blok_fullpath buf path s.
Proof.
  unfold blok_fullpath, bind, mem.
  destruct (strcpy buf (rootdir (BLOK_DATA s))) as [fpath1|]; [|reflexivity].
  unfold strncat. rewrite c_str_idemp. reflexivity.
Qed.

Lemma blok_getattr_c_str s path :
  blok_getattr (c_str path) s = blok_getattr path s.
Proof. unfold blok_getattr, bind. rewrite blok_fullpath_c_str. reflexivity. Qed.

Lemma c_str_lit_root : c_str (lit "/") = lit "/".
Proof. reflexivity. Qed.

(** C8.  On the path "/" [blok_fgetattr] is [blok_getattr] on "/", whatever
    the handle argument is; on every other path it is [fstat] on the
    descriptor in the handle followed by the normalization of
    [wrap_return_code]. *)
Theorem blok_fgetattr_spec s path fi :
  (c_str path = lit "/" ->
     blok_fgetattr path fi s = blok_getattr (lit "/") s /\
     forall fi', blok_fgetattr path fi' s = blok_fgetattr path fi s) /\
  (c_str path <> lit "/" ->
     blok_fgetattr path fi s = fstat_normalized fi s).
Proof.
  split.
  - intros Hroot.
    assert (Hcmp : strcmp path (lit "/") = 0).
    { apply strcmp_eq. rewrite Hroot. reflexivity. }
    assert (H : forall fi0, blok_fgetattr path fi0 s = blok_getattr (lit "/") s).
    { intros fi0. unfold blok_fgetattr. rewrite Hcmp. simpl.
      rewrite <- blok_getattr_c_str, Hroot. reflexivity. }
    split; [apply H|]. intros fi'. rewrite !H. reflexivity.
  - intros Hother.
    assert (Hcmp : strcmp path (lit "/") <> 0).
    { intros Hcmp. apply strcmp_eq in Hcmp. auto. }
    unfold blok_fgetattr, fstat_normalized.
    destruct (Z.eqb_spec (strcmp path (lit "/")) 0) as [E|_]; [contradiction|].
    unfold bind. destruct (fstat (to_int (fh fi)) s) as [[r statbuf] s'| |];
      [|reflexivity..].
    unfold wrap_return_code. destruct (r <? 0); reflexivity.
Qed.

(** ** readdir: the first read *)

Lemma readdir_end s (dp : Z) (w : world) :
  os_step (Readdir dp) (os s) = (inr None, w) ->
  readdir dp s = Returns None (called (Readdir dp) (errno s) w s).
Proof.
  intros Hos. unfold readdir, bind.
  rewrite (kernel_succeeds _ _ _ _ Hos). reflexivity.
Qed.

Lemma readdir_entry s (dp : Z) (de : dirent) (w : world) :
  os_step (Readdir dp) (os s) = (inr (Some de), w) ->
  readdir dp s = Returns (Some de) (called (Readdir dp) (errno s) w s).
Proof.
  intros Hos. unfold readdir, bind.
  rewrite (kernel_succeeds _ _ _ _ Hos). reflexivity.
Qed.

Lemma readdir_fails s (dp : Z) (e : Z) (w : world) :
  os_step (Readdir dp) (os s) = (inl e, w) ->
  readdir dp s = Returns None (called (Readdir dp) e w s).
Proof.
  intros Hos. unfold readdir, bind.
  rewrite (kernel_fails _ _ _ _ Hos). reflexivity.
Qed.

(** ** The handlers that do surface a failure

    Every handler below makes one call on the real path (or on the
    descriptor) and returns its normalized status: when the call fails with
    error [e] the handler returns [-e]. *)

Ltac surface_failure Hfit Hos He :=
  let fpath := fresh "fpath" in
  let Hfp := fresh "Hfp" in
  let Hstr := fresh "Hstr" in
  destruct (fullpath_local _ _ Hfit) as (fpath & Hfp & Hstr);
  unfold bind; rewrite Hfp; rewrite ?Hstr;
  rewrite (status_fails _ _ _ _ _ Hos);
  rewrite ?wrap_return_code_neg
    by (rewrite ?errno_called; unfold INT_MIN, INT_MAX in *; lia);
  rewrite ?errno_called; reflexivity.

Lemma blok_mkdir_surfaces_failure s path (mode e : Z) (w : world) :
  path_fits s path ->
  os_step (Mkdir (real_path s path) mode) (os s) = (inl e, w) ->
  0 < e <= INT_MAX ->
  blok_mkdir path mode s = Returns (- e) (called (Mkdir (real_path s path) mode) e w s).
Proof. intros Hfit Hos He. unfold blok_mkdir, mkdir. surface_failure Hfit Hos He. Qed.

Lemma blok_unlink_surfaces_failure s path (e : Z) (w : world) :
  path_fits s path ->
  os_step (Unlink (real_path s path)) (os s) = (inl e, w) ->
  0 < e <= INT_MAX ->
  blok_unlink path s = Returns (- e) (called (Unlink (real_path s path)) e w s).
Proof. intros Hfit Hos He. unfold blok_unlink, unlink. surface_failure Hfit Hos He. Qed.

Lemma blok_rmdir_surfaces_failure s path (e : Z) (w : world) :
  path_fits s path ->
  os_step (Rmdir (real_path s path)) (os s) = (inl e, w) ->
  0 < e <= INT_MAX ->
  blok_rmdir path s = Returns (- e) (called (Rmdir (real_path s path)) e w s).
Proof. intros Hfit Hos He. unfold blok_rmdir, rmdir. surface_failure Hfit Hos He. Qed.

Lemma blok_chmod_surfaces_failure s path (mode e : Z) (w : world) :
  path_fits s path ->
  os_step (Chmod (real_path s path) mode) (os s) = (inl e, w) ->
  0 < e <= INT_MAX ->
  blok_chmod path mode s = Returns (- e) (called (Chmod (real_path s path) mode) e w s).
Proof. intros Hfit Hos He. unfold blok_chmod, chmod. surface_failure Hfit Hos He. Qed.

Lemma blok_chown_surfaces_failure s path (uid gid e : Z) (w : world) :
  path_fits s path ->
  os_step (Chown (real_path s path) uid gid) (os s) = (inl e, w) ->
  0 < e <= INT_MAX ->
  blok_chown path uid gid s =
    Returns (- e) (called (Chown (real_path s path) uid gid) e w s).
Proof. intros Hfit Hos He. unfold blok_chown, chown. surface_failure Hfit Hos He. Qed.

Lemma blok_truncate_surfaces_failure s path (newsize e : Z) (w : world) :
  path_fits s path ->
  os_step (Truncate (real_path s path) newsize) (os s) = (inl e, w) ->
  0 < e <= INT_MAX ->
  blok_truncate path newsize s =
    Returns (- e) (called (Truncate (real_path s path) newsize) e w s).
Proof. intros Hfit Hos He. unfold blok_truncate, truncate. surface_failure Hfit Hos He. Qed.

Lemma blok_utime_surfaces_failure s path (ubuf : option utimbuf) (e : Z) (w : world) :
  path_fits s path ->
  os_step (Utime (real_path s path) ubuf) (os s) = (inl e, w) ->
  0 < e <= INT_MAX ->
  blok_utime path ubuf s =
    Returns (- e) (called (Utime (real_path s path) ubuf) e w s).
Proof. intros Hfit Hos He. unfold blok_utime, utime. surface_failure Hfit Hos He. Qed.

(** The link's target is passed on as it is; only the link's own place is
    resolved. *)
Lemma blok_symlink_surfaces_failure s (path link : list byte) (e : Z) (w : world) :
  path_fits s link ->
  os_step (Symlink (c_str path) (real_path s link)) (os s) = (inl e, w) ->
  0 < e <= INT_MAX ->
  blok_symlink path link s =
    Returns (- e) (called (Symlink (c_str path) (real_path s link)) e w s).
Proof. intros Hfit Hos He. unfold blok_symlink, symlink. surface_failure Hfit Hos He. Qed.

Lemma blok_access_surfaces_failure s path (mask e : Z) (w : world) :
  path_fits s path ->
  os_step (Access (real_path s path) mask) (os s) = (inl e, w) ->
  0 < e <= INT_MAX ->
  blok_access path mask s =
    Returns (- e) (called (Access (real_path s path) mask) e w s).
Proof.
  intros Hfit Hos He. unfold blok_access, access.
  destruct (fullpath_local _ _ Hfit) as (fpath & Hfp & Hstr).
  unfold bind. rewrite Hfp, Hstr, (status_fails _ _ _ _ _ Hos).
  simpl. unfold ret.
  rewrite int_neg_small by (unfold INT_MIN, INT_MAX in *; lia). reflexivity.
Qed.

Lemma blok_getattr_surfaces_failure s path (e : Z) (w : world) :
  path_fits s path ->
  os_step (Lstat (real_path s path)) (os s) = (inl e, w) ->
  0 < e <= INT_MAX ->
  blok_getattr path s =
    Returns (- e, None) (called (Lstat (real_path s path)) e w s).
Proof.
  intros Hfit Hos He. unfold blok_getattr, lstat.
  destruct (fullpath_local _ _ Hfit) as (fpath & Hfp & Hstr).
  unfold bind. rewrite Hfp, Hstr, (kernel_fails _ _ _ _ Hos).
  unfold ret at 1.
  rewrite wrap_return_code_neg
    by (rewrite ?errno_called; unfold INT_MIN, INT_MAX in *; lia).
  rewrite errno_called. reflexivity.
Qed.

Lemma blok_fsync_surfaces_failure s path (datasync : Z) fi (e : Z) (w : world) :
  let c := if HAVE_FDATASYNC && negb (datasync =? 0)
           then Fdatasync (to_int (fh fi)) else Fsync (to_int (fh fi)) in
  os_step c (os s) = (inl e, w) ->
  0 < e <= INT_MAX ->
  blok_fsync path datasync fi s = Returns (- e) (called c e w s).
Proof.
  intros c Hos He. subst c. unfold blok_fsync, fdatasync, fsync.
  destruct (HAVE_FDATASYNC && negb (datasync =? 0));
    unfold bind; rewrite (status_fails _ _ _ _ _ Hos);
    rewrite wrap_return_code_neg
      by (rewrite ?errno_called; unfold INT_MIN, INT_MAX in *; lia);
    rewrite errno_called; reflexivity.
Qed.

Lemma blok_opendir_surfaces_failure s path fi (e : Z) (w : world) :
  path_fits s path ->
  os_step (Opendir (real_path s path)) (os s) = (inl e, w) ->
  0 < e <= INT_MAX ->
  blok_opendir path fi s =
    Returns (- e, {| flags := flags fi; fh := 0 |})
            (called (Opendir (real_path s path)) e w s).
Proof.
  intros Hfit Hos He. unfold blok_opendir, opendir.
  destruct (fullpath_local _ _ Hfit) as (fpath & Hfp & Hstr).
  unfold bind. rewrite Hfp, Hstr, (kernel_fails _ _ _ _ Hos).
  unfold ret at 1. simpl. unfold ret.
  rewrite int_neg_small by (unfold INT_MIN, INT_MAX in *; lia). reflexivity.
Qed.


(** C10.  When the first [readdir] of a call returns NULL, [blok_readdir]
    returns the negation of [errno] and leaves the reply buffer alone.  At
    the end of a stream [readdir] has not set [errno], so the handler
    returns the negation of whatever [errno] held before the call (0 when it
    held 0); after a failed read it returns the negation of the error just
    set.  The two cases go through the same return. *)
Theorem blok_readdir_first_null {B} s (fuel : nat) path (buf : B)
    (filler : fuse_fill_dir_t B) (offset : Z) fi :
  let dp := to_uint64 (fh fi) in
  (forall w, os_step (Readdir dp) (os s) = (inr None, w) ->
     INT_MIN < errno s <= INT_MAX ->
     blok_readdir fuel path buf filler offset fi s =
       Returns (- errno s, buf) (called (Readdir dp) (errno s) w s)) /\
  (forall e w, os_step (Readdir dp) (os s) = (inl e, w) ->
     INT_MIN < e <= INT_MAX ->
     blok_readdir fuel path buf filler offset fi s =
       Returns (- e, buf) (called (Readdir dp) e w s)).
Proof.
  intros dp. split.
  - intros w Hos He. unfold blok_readdir, bind. fold dp.
    rewrite (readdir_end _ _ _ Hos).
    unfold get_errno, ret. rewrite errno_called.
    rewrite int_neg_small by exact He. reflexivity.
  - intros e w Hos He. unfold blok_readdir, bind. fold dp.
    rewrite (readdir_fails _ _ _ _ Hos).
    unfold get_errno, ret. rewrite errno_called.
    rewrite int_neg_small by exact He. reflexivity.
Qed.

(** ** What a handler leaves in the trace *)

Lemma calls_of_one {A} s (a : A) (c : syscall) (e : Z) (w : world) :
  calls_of s (Returns a (called c e w s)) = [c].
Proof.
  unfold calls_of. rewrite trace_called. rewrite drop_app_length. reflexivity.
Qed.

Lemma calls_of_two {A} s (a : A) (c1 c2 : syscall) (e1 e2 : Z) (w1 w2 : world) :
  calls_of s (Returns a (called c2 e2 w2 (called c1 e1 w1 s))) = [c1; c2].
Proof.
  unfold calls_of. rewrite !trace_called, <- app_assoc.
  rewrite drop_app_length. reflexivity.
Qed.

(** A status call always returns, having been recorded once. *)
Lemma status_returns (c : syscall) (ok : reply c -> Z) s :
  exists r e w, status c ok s = Returns r (called c e w s).
Proof.
  destruct (os_step c (os s)) as [[e|v] w] eqn:Hos.
  - exists (-1), e, w. apply status_fails, Hos.
  - exists (ok v), (errno s), w. apply status_succeeds, Hos.
Qed.

Lemma wrap_return_code_returns (r : Z) s :
  exists rc, wrap_return_code r s = Returns rc s.
Proof.
  unfold wrap_return_code. destruct (r <? 0); eexists; reflexivity.
Qed.

(** A status call followed by the normalizer makes exactly that call. *)
Lemma normalized_status_calls (c : syscall) (ok : reply c -> Z) s :
  calls_of s (bind (status c ok) wrap_return_code s) = [c].
Proof.
  unfold bind. destruct (status_returns c ok s) as (r & e & w & ->).
  destruct (wrap_return_code_returns r (called c e w s)) as (rc & ->).
  apply calls_of_one.
Qed.

(** ** mknod *)

Lemma S_ISFIFO_not_S_ISREG (mode : Z) : S_ISFIFO mode = true -> S_ISREG mode = false.
Proof.
  unfold S_ISFIFO, S_ISREG. intros H%Z.eqb_eq. rewrite H. reflexivity.
Qed.

(** C7.  [blok_mknod] chooses the primitive by the file type in [mode].  A
    regular file is made by [open] with O_CREAT | O_EXCL | O_WRONLY and the
    given mode, and the descriptor, when there is one, is closed at once; a
    FIFO is made by [mkfifo] and by nothing else; every other type is made
    by [mknod].  In particular [mknod] is never called for a FIFO. *)
Theorem blok_mknod_dispatch s path (mode dev : Z) :
  path_fits s path ->
  let fpath := real_path s path in
  let creat := Open fpath (Z.lor (Z.lor O_CREAT O_EXCL) O_WRONLY) (Some mode) in
  let calls := calls_of s (blok_mknod path mode dev s) in
  (S_ISREG mode = true ->
     (forall fd w, os_step creat (os s) = (inr fd, w) -> 0 <= fd ->
        calls = [creat; Close fd]) /\
     (forall e w, os_step creat (os s) = (inl e, w) -> 0 < e <= INT_MAX ->
        calls = [creat])) /\
  (S_ISFIFO mode = true -> calls = [Mkfifo fpath mode]) /\
  (S_ISREG mode = false -> S_ISFIFO mode = false ->
     calls = [Mknod fpath mode dev]) /\
  (S_ISFIFO mode = true -> forall p m d, Mknod p m d ∉ calls).
Proof.
  intros Hfit fpath creat calls.
  destruct (fullpath_local s path Hfit) as (buf & Hfp & Hstr).
  assert (Hfifo : S_ISFIFO mode = true -> calls = [Mkfifo fpath mode]).
  { intros Hm. subst calls. unfold blok_mknod, bind at 1. rewrite Hfp.
    rewrite (S_ISFIFO_not_S_ISREG _ Hm), Hm.
    unfold mkfifo. rewrite Hstr. apply normalized_status_calls. }
  split; [|split; [exact Hfifo|split]].
  - intros Hreg. split.
    + intros fd w Hos Hfd. subst calls.
      unfold blok_mknod, bind at 1. rewrite Hfp, Hreg.
      unfold bind at 1. unfold open. rewrite Hstr.
      rewrite (status_succeeds _ _ _ _ _ Hos).
      unfold bind at 1. rewrite wrap_return_code_nonneg by exact Hfd.
      destruct (Z.leb_spec 0 fd); [|lia].
      unfold bind, close.
      destruct (status_returns (Close fd) (fun _ => 0) (called creat (errno s) w s))
        as (r & e' & w' & ->).
      destruct (wrap_return_code_returns r
                  (called (Close fd) e' w' (called creat (errno s) w s))) as (rc & ->).
      apply calls_of_two.
    + intros e w Hos He. subst calls.
      unfold blok_mknod, bind at 1. rewrite Hfp, Hreg.
      unfold bind at 1. unfold open. rewrite Hstr.
      rewrite (status_fails _ _ _ _ _ Hos).
      unfold bind at 1.
      rewrite wrap_return_code_neg
        by (rewrite ?errno_called; unfold INT_MIN, INT_MAX in *; lia).
      rewrite errno_called.
      destruct (Z.leb_spec 0 (- e)); [lia|].
      apply calls_of_one.
  - intros Hreg Hm. subst calls. unfold blok_mknod, bind at 1. rewrite Hfp, Hreg, Hm.
    unfold mknod. rewrite Hstr. apply normalized_status_calls.
  - intros Hm p m d. rewrite (Hfifo Hm).
    intros Hin%list_elem_of_singleton. discriminate Hin.
Qed.

(** ** readlink *)

Lemma write_at_0 (a bs : list byte) :
  (length bs <= length a)%nat ->
  write_at a 0 bs = Some (bs ++ drop (length bs) a).
Proof.
  intros Hlen. unfold write_at. simpl.
  destruct (Nat.leb_spec (length bs) (length a)); [reflexivity|lia].
Qed.

(** Storing a terminator right after a prefix of known length. *)
Lemma store_after_prefix (l r : list byte) (b : byte) :
  (0 < length r)%nat ->
  store (l ++ r) (Z.of_nat (length l)) b = Some (l ++ b :: drop 1 r).
Proof.
  intros Hr. unfold store.
  rewrite length_app.
  destruct (Z.leb_spec 0 (Z.of_nat (length l))); [|lia].
  destruct (Z.ltb_spec (Z.of_nat (length l)) (Z.of_nat (length l + length r))); [|lia].
  simpl. rewrite Nat2Z.id.
  rewrite insert_app_r_alt by lia. rewrite Nat.sub_diag.
  destruct r as [|x r]; [simpl in Hr; lia|]. reflexivity.
Qed.

(** C5.  With a buffer of [size >= 1] bytes, [blok_readlink] asks the
    kernel for at most [size - 1] bytes of the link, so that [n], the number
    of bytes stored, is at most [size - 1]; it stores the terminator at index
    [n], leaves the rest of the buffer alone, and returns 0 rather than [n].
    When the link is longer than [size - 1] bytes the buffer ends up holding
    its first [size - 1] bytes followed by the terminator.  ([n] is returned
    to the handler through an [int], so it has to be one.) *)
Theorem blok_readlink_spec s path (link : list byte) (size : Z)
    (target : list byte) (w : world) :
  path_fits s path ->
  Z.of_nat (length link) = size ->
  1 <= size <= SIZE_MAX ->
  let c := Readlink (real_path s path) (size - 1) in
  os_step c (os s) = (inr target, w) ->
  let n := Z.min (size - 1) (Z.of_nat (length target)) in
  n <= INT_MAX ->
  let link' := take (Z.to_nat n) target ++ NUL :: drop (S (Z.to_nat n)) link in
  blok_readlink path link size s = Returns (0, link') (called c (errno s) w s) /\
  n <= size - 1 /\
  (size - 1 < Z.of_nat (length target) ->
     link' = take (Z.to_nat (size - 1)) target ++ [NUL]).
Proof.
  intros Hfit Hlink Hsize c Hos n Hn link'.
  destruct (fullpath_local s path Hfit) as (fpath & Hfp & Hstr).
  assert (Hn0 : 0 <= n) by (subst n; lia).
  assert (Htake : length (take (Z.to_nat n) target) = Z.to_nat n).
  { rewrite length_take. subst n. lia. }
  split; [|split].
  - unfold blok_readlink, bind at 1. rewrite Hfp.
    rewrite to_uint64_small by lia.
    unfold bind at 1. unfold readlink, bind at 1. rewrite Hstr.
    fold c. rewrite (kernel_succeeds _ _ _ _ Hos).
    fold n. unfold bind at 1, mem.
    rewrite write_at_0 by (rewrite Htake; lia).
    unfold ret at 1. cbv beta iota.
    rewrite to_int_small by (unfold is_int, INT_MIN; lia).
    unfold bind at 1. rewrite wrap_return_code_nonneg by exact Hn0.
    destruct (Z.leb_spec 0 n); [|lia].
    unfold bind, mem.
    replace n with (Z.of_nat (length (take (Z.to_nat n) target))) at 3
      by (rewrite Htake; lia).
    rewrite store_after_prefix by (rewrite length_drop, Htake; lia).
    unfold ret. rewrite Htake, drop_drop. subst link'.
    replace (Z.to_nat n + 1)%nat with (S (Z.to_nat n)) by lia.
    reflexivity.
  - subst n. lia.
  - intros Hlong. subst link'.
    replace n with (size - 1) by (subst n; lia).
    rewrite drop_ge by lia. reflexivity.
Qed.

(** ** readdir: the listing *)

Lemma feed_fill_dir (buf names : list (list byte)) :
  feed fill_dir buf names = (0, buf ++ names).
Proof.
  revert buf. induction names as [|name names IH]; intros buf; simpl.
  - rewrite app_nil_r. reflexivity.
  - rewrite IH, <- app_assoc. reflexivity.
Qed.

(** A callback that never refuses has, at the end, been applied to each
    name once, in order. *)
Lemma feed_accepts_all {B} (filler : fuse_fill_dir_t B) (buf : B)
    (names : list (list byte)) :
  (forall b name, fst (filler b name None 0) = 0) ->
  feed filler buf names =
    (0, fold_left (fun b name => snd (filler b name None 0)) names buf).
Proof.
  intros Hacc. revert buf.
  induction names as [|name names IH]; intros buf; simpl; [reflexivity|].
  specialize (Hacc buf name).
  destruct (filler buf name None 0) as [full buf1]. simpl in *. subst full.
  simpl. apply IH.
Qed.

(** The loop, entered with entry [de] in hand and [rest] still in the
    stream: the callback is fed the names in stream order; if it takes them
    all the loop ends with the stream exhausted, otherwise it ends at the
    first name refused. *)
Lemma blok_readdir_loop_spec {B} (filler : fuse_fill_dir_t B) (dp retstat : Z)
    (rest : list dirent) :
  forall (fuel : nat) (buf : B) (de : dirent) s (w_end : world),
    stream_at dp rest (os s) w_end ->
    (length rest < fuel)%nat ->
    let fed := feed filler buf (map d_name (de :: rest)) in
    (fst fed = 0 ->
       exists s',
         blok_readdir_loop fuel buf filler dp retstat de s =
           Returns (retstat, snd fed) s' /\
         os s' = w_end /\ errno s' = errno s /\ BLOK_DATA s' = BLOK_DATA s /\
         trace s' = trace s ++ replicate (S (length rest)) (Readdir dp)) /\
    (fst fed <> 0 ->
       exists s',
         blok_readdir_loop fuel buf filler dp retstat de s =
           Returns (- ENOMEM, snd fed) s').
Proof.
  induction rest as [|de' rest IH]; intros fuel buf de s w_end Hstream Hfuel;
    (destruct fuel as [|fuel]; [simpl in Hfuel; lia|]);
    simpl feed; simpl blok_readdir_loop;
    destruct (filler buf (d_name de) None 0) as [full buf1] eqn:Hfill;
    destruct (Z.eqb_spec full 0) as [->|Hfull]; unfold negb; cbv beta iota.
  - (* last entry, accepted *)
    simpl in Hstream. split; [intros _|simpl; congruence].
    unfold bind. rewrite (readdir_end _ _ _ Hstream).
    eexists. split; [reflexivity|].
    repeat split.
  - (* last entry, refused *)
    split; [simpl; congruence|intros _].
    eexists. reflexivity.
  - (* accepted, more to come *)
    simpl in Hstream. destruct Hstream as (w' & Hos & Hstream).
    specialize (IH fuel buf1 de' (called (Readdir dp) (errno s) w' s) w_end
                   Hstream ltac:(simpl in Hfuel; lia)).
    destruct IH as [IHok IHfull]. split.
    + intros Hfed. destruct (IHok Hfed) as (s' & Hrun & Hw & He & Hd & Ht).
      exists s'. split.
      { unfold bind. rewrite (readdir_entry _ _ _ _ Hos). exact Hrun. }
      repeat split; try assumption.
      rewrite Ht, trace_called, <- app_assoc. reflexivity.
    + intros Hfed. destruct (IHfull Hfed) as (s' & Hrun).
      exists s'. unfold bind. rewrite (readdir_entry _ _ _ _ Hos). exact Hrun.
  - (* refused *)
    split; [simpl; congruence|intros _].
    eexists. reflexivity.
Qed.

(** C4, as the code has it.  On a stream that stands at the first of one or
    more entries, a call of [blok_readdir] feeds the names to the callback in
    stream order.  If the callback takes every name, the call returns 0 with
    each entry reported once, none left out, and the stream exhausted.  If
    the callback refuses a name, the call returns -ENOMEM. *)
Theorem blok_readdir_lists_stream {B} s (fuel : nat) path (buf : B)
    (filler : fuse_fill_dir_t B) (offset : Z) fi
    (de : dirent) (rest : list dirent) (w_end : world) :
  stream_at (to_uint64 (fh fi)) (de :: rest) (os s) w_end ->
  (length rest < fuel)%nat ->
  let fed := feed filler buf (map d_name (de :: rest)) in
  (fst fed = 0 ->
     exists s',
       blok_readdir fuel path buf filler offset fi s = Returns (0, snd fed) s' /\
       os s' = w_end /\ errno s' = errno s) /\
  (fst fed <> 0 ->
     exists s',
       blok_readdir fuel path buf filler offset fi s = Returns (- ENOMEM, snd fed) s').
Proof.
  intros Hstream Hfuel fed. simpl in Hstream.
  destruct Hstream as (w' & Hos & Hstream).
  pose proof (blok_readdir_loop_spec filler (to_uint64 (fh fi)) 0 rest fuel buf de
                (called (Readdir (to_uint64 (fh fi))) (errno s) w' s) w_end
                Hstream Hfuel) as [Hok Hfull].
  split; intros Hfed.
  - destruct (Hok Hfed) as (s' & Hrun & Hw & He & _).
    exists s'. split; [|split; assumption].
    unfold blok_readdir, bind. rewrite (readdir_entry _ _ _ _ Hos). exact Hrun.
  - destruct (Hfull Hfed) as (s' & Hrun).
    exists s'.
    unfold blok_readdir, bind. rewrite (readdir_entry _ _ _ _ Hos). exact Hrun.
Qed.

(** With the callback that always has room, the buffer gains exactly the
    names of the stream, in order. *)
Lemma blok_readdir_fill_dir s (fuel : nat) path (buf : list (list byte))
    (offset : Z) fi (de : dirent) (rest : list dirent) (w_end : world) :
  stream_at (to_uint64 (fh fi)) (de :: rest) (os s) w_end ->
  (length rest < fuel)%nat ->
  exists s',
    blok_readdir fuel path buf fill_dir offset fi s =
      Returns (0, buf ++ map d_name (de :: rest)) s' /\
    os s' = w_end.
Proof.
  intros Hstream Hfuel. simpl in Hstream.
  destruct Hstream as (w' & Hos & Hstream).
  pose proof (blok_readdir_loop_spec fill_dir (to_uint64 (fh fi)) 0 rest fuel buf de
                (called (Readdir (to_uint64 (fh fi))) (errno s) w' s) w_end
                Hstream Hfuel) as [Hok _].
  rewrite feed_fill_dir in Hok.
  destruct (Hok eq_refl) as (s' & Hrun & Hw & _).
  exists s'. split; [|exact Hw].
  unfold blok_readdir, bind. rewrite (readdir_entry _ _ _ _ Hos). exact Hrun.
Qed.

(** X17.  An entry the callback refuses has been read all the same: the
    call returns -ENOMEM with the kernel standing after that entry, so that
    the next read of the stream yields the entry that follows it. *)
Lemma blok_readdir_consumes_refused {B} s (fuel : nat) path (buf buf' : B)
    (filler : fuse_fill_dir_t B) (offset : Z) fi (de : dirent) (full : Z) (w1 : world) :
  let dp := to_uint64 (fh fi) in
  os_step (Readdir dp) (os s) = (inr (Some de), w1) ->
  filler buf (d_name de) None 0 = (full, buf') ->
  full <> 0 ->
  blok_readdir (S fuel) path buf filler offset fi s =
    Returns (- ENOMEM, buf') (called (Readdir dp) (errno s) w1 s).
Proof.
  intros dp Hos Hfill Hfull. unfold blok_readdir, bind. fold dp.
  rewrite (readdir_entry _ _ _ _ Hos). simpl. rewrite Hfill.
  destruct (Z.eqb_spec full 0); [contradiction|]. reflexivity.
Qed.

End Properties.

(** * The rest of the driver *)

Section Handlers.
Context `{P : Platform}.

Implicit Types (s : state) (path fpath : list byte) (fi : fuse_file_info).

(** ** One call and its normalized status *)

Lemma normalized_status (c : syscall) (ok : reply c -> Z) s
    (r : Z + reply c) (w : world) :
  os_step c (os s) = (r, w) ->
  posix_answer r ->
  (forall v, r = inr v -> 0 <= ok v) ->
  bind (status c ok) wrap_return_code s = Returns (status_code r ok) (after c r w s).
Proof.
  intros Hos Hr Hok. unfold bind, after, errno_after, status_code.
  destruct r as [e|v].
  - rewrite (status_fails _ _ _ _ _ Hos).
    rewrite wrap_return_code_neg
      by (rewrite ?errno_called; simpl in Hr; unfold INT_MIN, INT_MAX in *; lia).
    rewrite errno_called. reflexivity.
  - rewrite (status_succeeds _ _ _ _ _ Hos).
    rewrite wrap_return_code_nonneg by (apply Hok; reflexivity).
    reflexivity.
Qed.

(** The same status when the handler writes the test out itself, as
    [blok_access] and [blok_ftruncate] do. *)
Lemma open_coded_status (c : syscall) s (r : Z + reply c) (w : world) :
  os_step c (os s) = (r, w) ->
  posix_answer r ->
  bind (status c (fun _ => 0))
       (fun retstat =>
          if retstat <? 0 then bind get_errno (fun e => ret (int_neg e))
          else ret retstat) s
  = Returns (status_code r (fun _ => 0)) (after c r w s).
Proof.
  intros Hos Hr. unfold bind, after, errno_after, status_code.
  destruct r as [e|v].
  - rewrite (status_fails _ _ _ _ _ Hos). simpl. unfold ret.
    rewrite int_neg_small by (simpl in Hr; unfold INT_MIN, INT_MAX in *; lia).
    reflexivity.
  - rewrite (status_succeeds _ _ _ _ _ Hos). reflexivity.
Qed.

Ltac on_real_path Hfit :=
  let fpath := fresh "fpath" in
  let Hfp := fresh "Hfp" in
  let Hstr := fresh "Hstr" in
  destruct (fullpath_local _ _ Hfit) as (fpath & Hfp & Hstr);
  unfold bind at 1; rewrite Hfp; rewrite ?Hstr.

(** ** Handlers that make one call on the real path *)

(** X1.  [blok_mkdir], [blok_unlink] and [blok_rmdir] make exactly one call,
    the one of their name, on the real path, and return 0 when it succeeds
    and the negated error number when it fails. *)
Theorem blok_tree_operations s path :
  path_fits s path ->
  (forall mode r w,
     os_step (Mkdir (real_path s path) mode) (os s) = (r, w) -> posix_answer r ->
     blok_mkdir path mode s =
       Returns (status_code r (fun _ => 0)) (after (Mkdir (real_path s path) mode) r w s)) /\
  (forall r w,
     os_step (Unlink (real_path s path)) (os s) = (r, w) -> posix_answer r ->
     blok_unlink path s =
       Returns (status_code r (fun _ => 0)) (after (Unlink (real_path s path)) r w s)) /\
  (forall r w,
     os_step (Rmdir (real_path s path)) (os s) = (r, w) -> posix_answer r ->
     blok_rmdir path s =
       Returns (status_code r (fun _ => 0)) (after (Rmdir (real_path s path)) r w s)).
Proof.
  intros Hfit. repeat split.
  - intros mode r w Hos Hr. unfold blok_mkdir, mkdir. on_real_path Hfit.
    apply normalized_status; [exact Hos | exact Hr | intros; lia].
  - intros r w Hos Hr. unfold blok_unlink, unlink. on_real_path Hfit.
    apply normalized_status; [exact Hos | exact Hr | intros; lia].
  - intros r w Hos Hr. unfold blok_rmdir, rmdir. on_real_path Hfit.
    apply normalized_status; [exact Hos | exact Hr | intros; lia].
Qed.

(** X2.  [blok_chmod], [blok_chown], [blok_truncate], [blok_utime] and
    [blok_access] pass their arguments on unchanged in one call on the real
    path and return its normalized status. *)
Theorem blok_attribute_operations s path :
  path_fits s path ->
  (forall mode r w,
     os_step (Chmod (real_path s path) mode) (os s) = (r, w) -> posix_answer r ->
     blok_chmod path mode s =
       Returns (status_code r (fun _ => 0)) (after (Chmod (real_path s path) mode) r w s)) /\
  (forall uid gid r w,
     os_step (Chown (real_path s path) uid gid) (os s) = (r, w) -> posix_answer r ->
     blok_chown path uid gid s =
       Returns (status_code r (fun _ => 0))
         (after (Chown (real_path s path) uid gid) r w s)) /\
  (forall newsize r w,
     os_step (Truncate (real_path s path) newsize) (os s) = (r, w) -> posix_answer r ->
     blok_truncate path newsize s =
       Returns (status_code r (fun _ => 0))
         (after (Truncate (real_path s path) newsize) r w s)) /\
  (forall ubuf r w,
     os_step (Utime (real_path s path) ubuf) (os s) = (r, w) -> posix_answer r ->
     blok_utime path ubuf s =
       Returns (status_code r (fun _ => 0)) (after (Utime (real_path s path) ubuf) r w s)) /\
  (forall mask r w,
     os_step (Access (real_path s path) mask) (os s) = (r, w) -> posix_answer r ->
     blok_access path mask s =
       Returns (status_code r (fun _ => 0)) (after (Access (real_path s path) mask) r w s)).
Proof.
  intros Hfit. repeat split.
  - intros mode r w Hos Hr. unfold blok_chmod, chmod. on_real_path Hfit.
    apply normalized_status; [exact Hos | exact Hr | intros; lia].
  - intros uid gid r w Hos Hr. unfold blok_chown, chown. on_real_path Hfit.
    apply normalized_status; [exact Hos | exact Hr | intros; lia].
  - intros newsize r w Hos Hr. unfold blok_truncate, truncate. on_real_path Hfit.
    apply normalized_status; [exact Hos | exact Hr | intros; lia].
  - intros ubuf r w Hos Hr. unfold blok_utime, utime. on_real_path Hfit.
    apply normalized_status; [exact Hos | exact Hr | intros; lia].
  - intros mask r w Hos Hr. unfold blok_access, access. on_real_path Hfit.
    apply open_coded_status; [exact Hos | exact Hr].
Qed.

(** X3.  [blok_symlink] resolves the place of the link against the root and
    passes the target on as the string it was given: the target is not
    resolved, and its length is not bounded by [PATH_MAX]. *)
Theorem blok_symlink_target_unresolved s (path link : list byte)
    (r : Z + unit) (w : world) :
  path_fits s link ->
  os_step (Symlink (c_str path) (real_path s link)) (os s) = (r, w) ->
  posix_answer r ->
  blok_symlink path link s =
    Returns (status_code r (fun _ => 0))
      (after (Symlink (c_str path) (real_path s link)) r w s).
Proof.
  intros Hfit Hos Hr. unfold blok_symlink, symlink. on_real_path Hfit.
  apply normalized_status; [exact Hos | exact Hr | intros; lia].
Qed.

(** X4.  [blok_rename] and [blok_link] resolve both of their paths against
    the root, each on its own, and make one call with the two real paths. *)
Theorem blok_rename_link_both_resolved s (path newpath : list byte) :
  path_fits s path ->
  path_fits s newpath ->
  (forall r w,
     os_step (Rename (real_path s path) (real_path s newpath)) (os s) = (r, w) ->
     posix_answer r ->
     blok_rename path newpath s =
       Returns (status_code r (fun _ => 0))
         (after (Rename (real_path s path) (real_path s newpath)) r w s)) /\
  (forall r w,
     os_step (Link (real_path s path) (real_path s newpath)) (os s) = (r, w) ->
     posix_answer r ->
     blok_link path newpath s =
       Returns (status_code r (fun _ => 0))
         (after (Link (real_path s path) (real_path s newpath)) r w s)).
Proof.
  intros Hfit Hfit'. split.
  - intros r w Hos Hr. unfold blok_rename, rename.
    on_real_path Hfit. on_real_path Hfit'.
    apply normalized_status; [exact Hos | exact Hr | intros; lia].
  - intros r w Hos Hr. unfold blok_link, link.
    on_real_path Hfit. on_real_path Hfit'.
    apply normalized_status; [exact Hos | exact Hr | intros; lia].
Qed.

(** X5.  [blok_getattr] and [blok_statfs] return 0 together with the
    structure the kernel filled in for the real path, or the negated error
    number and no structure. *)
Theorem blok_getattr_statfs s path :
  path_fits s path ->
  (forall r w,
     os_step (Lstat (real_path s path)) (os s) = (r, w) -> posix_answer r ->
     blok_getattr path s =
       Returns (status_code r (fun _ => 0), answered r)
         (after (Lstat (real_path s path)) r w s)) /\
  (forall r w,
     os_step (Statvfs (real_path s path)) (os s) = (r, w) -> posix_answer r ->
     blok_statfs path s =
       Returns (status_code r (fun _ => 0), answered r)
         (after (Statvfs (real_path s path)) r w s)).
Proof.
  intros Hfit. split.
  - intros r w Hos Hr. unfold blok_getattr, lstat. on_real_path Hfit.
    unfold bind, after, errno_after. destruct r as [e|st].
    + rewrite (kernel_fails _ _ _ _ Hos). unfold ret at 1.
      rewrite wrap_return_code_neg
        by (rewrite ?errno_called; simpl in Hr; unfold INT_MIN, INT_MAX in *; lia).
      rewrite errno_called. reflexivity.
    + rewrite (kernel_succeeds _ _ _ _ Hos). reflexivity.
  - intros r w Hos Hr. unfold blok_statfs, statvfs. on_real_path Hfit.
    unfold bind, after, errno_after. destruct r as [e|st].
    + rewrite (kernel_fails _ _ _ _ Hos). unfold ret at 1.
      rewrite wrap_return_code_neg
        by (rewrite ?errno_called; simpl in Hr; unfold INT_MIN, INT_MAX in *; lia).
      rewrite errno_called. reflexivity.
    + rewrite (kernel_succeeds _ _ _ _ Hos). reflexivity.
Qed.

(** ** readlink: failure and the empty buffer *)

(** X6.  When [readlink] fails, [blok_readlink] returns the negated error
    number and leaves the caller's buffer exactly as it was: no terminator is
    stored. *)
Theorem blok_readlink_failure s path (link : list byte) (size e : Z) (w : world) :
  path_fits s path ->
  1 <= size <= SIZE_MAX ->
  os_step (Readlink (real_path s path) (size - 1)) (os s) = (inl e, w) ->
  0 < e <= INT_MAX ->
  blok_readlink path link size s =
    Returns (- e, link) (called (Readlink (real_path s path) (size - 1)) e w s).
Proof.
  intros Hfit Hsize Hos He. unfold blok_readlink. on_real_path Hfit.
  rewrite to_uint64_small by lia.
  unfold bind at 1. unfold readlink, bind at 1. rewrite Hstr.
  rewrite (kernel_fails _ _ _ _ Hos). unfold ret at 1.
  change (to_int (-1)) with (-1).
  unfold bind at 1.
  rewrite wrap_return_code_neg
    by (rewrite ?errno_called; unfold INT_MIN, INT_MAX in *; lia).
  rewrite errno_called.
  destruct (Z.leb_spec 0 (- e)); [lia|]. reflexivity.
Qed.


(** ** mknod: what it returns *)

(** X8.  [blok_mknod] returns the normalized status of the call that makes
    the node.  For a regular file that takes two calls: a failed [open] gives
    its error; after a successful [open] the status is that of [close], so a
    failing [close] is reported although the file has been made. *)
Theorem blok_mknod_status s path (mode dev : Z) :
  path_fits s path ->
  let fpath := real_path s path in
  let creat := Open fpath (Z.lor (Z.lor O_CREAT O_EXCL) O_WRONLY) (Some mode) in
  (S_ISREG mode = true ->
     (forall e w, os_step creat (os s) = (inl e, w) -> 0 < e <= INT_MAX ->
        blok_mknod path mode dev s = Returns (- e) (called creat e w s)) /\
     (forall fd w r w', os_step creat (os s) = (inr fd, w) -> 0 <= fd ->
        os_step (Close fd) w = (r, w') -> posix_answer r ->
        blok_mknod path mode dev s =
          Returns (status_code r (fun _ => 0))
            (after (Close fd) r w' (called creat (errno s) w s)))) /\
  (S_ISREG mode = false -> S_ISFIFO mode = true ->
     forall r w, os_step (Mkfifo fpath mode) (os s) = (r, w) -> posix_answer r ->
       blok_mknod path mode dev s =
         Returns (status_code r (fun _ => 0)) (after (Mkfifo fpath mode) r w s)) /\
  (S_ISREG mode = false -> S_ISFIFO mode = false ->
     forall r w, os_step (Mknod fpath mode dev) (os s) = (r, w) -> posix_answer r ->
       blok_mknod path mode dev s =
         Returns (status_code r (fun _ => 0)) (after (Mknod fpath mode dev) r w s)).
Proof.
  intros Hfit fpath creat.
  split; [intros Hreg; split | split].
  - intros e w Hos He. unfold blok_mknod. on_real_path Hfit. rewrite Hreg.
    unfold bind at 1. unfold open. rewrite Hstr.
    rewrite (status_fails _ _ _ _ _ Hos).
    unfold bind at 1.
    rewrite wrap_return_code_neg
      by (rewrite ?errno_called; unfold INT_MIN, INT_MAX in *; lia).
    rewrite errno_called.
    destruct (Z.leb_spec 0 (- e)); [lia|]. reflexivity.
  - intros fd w r w' Hos Hfd Hclose Hr. unfold blok_mknod. on_real_path Hfit. rewrite Hreg.
    unfold bind at 1. unfold open. rewrite Hstr.
    rewrite (status_succeeds _ _ _ _ _ Hos).
    unfold bind at 1. rewrite wrap_return_code_nonneg by exact Hfd.
    destruct (Z.leb_spec 0 fd); [|lia].
    unfold close. apply normalized_status; [exact Hclose | exact Hr | intros; lia].
  - intros Hreg Hfifo r w Hos Hr. unfold blok_mknod. on_real_path Hfit.
    rewrite Hreg, Hfifo. unfold mkfifo. rewrite Hstr.
    apply normalized_status; [exact Hos | exact Hr | intros; lia].
  - intros Hreg Hfifo r w Hos Hr. unfold blok_mknod. on_real_path Hfit.
    rewrite Hreg, Hfifo. unfold mknod. rewrite Hstr.
    apply normalized_status; [exact Hos | exact Hr | intros; lia].
Qed.

(** ** Handlers that work on the descriptor in the handle *)

(** X9.  [blok_release] and [blok_ftruncate] act on the descriptor held in
    [fi->fh], read back as an [int], and return the normalized status of
    [close] and [ftruncate]; the path argument plays no part. *)
Theorem blok_release_ftruncate s path fi :
  let fd := to_int (fh fi) in
  (forall r w, os_step (Close fd) (os s) = (r, w) -> posix_answer r ->
     blok_release path fi s =
       Returns (status_code r (fun _ => 0)) (after (Close fd) r w s)) /\
  (forall offset r w, os_step (Ftruncate fd offset) (os s) = (r, w) -> posix_answer r ->
     blok_ftruncate path offset fi s =
       Returns (status_code r (fun _ => 0)) (after (Ftruncate fd offset) r w s)).
Proof.
  intros fd. split.
  - intros r w Hos Hr. unfold blok_release, close. fold fd.
    apply normalized_status; [exact Hos | exact Hr | intros; lia].
  - intros offset r w Hos Hr. unfold blok_ftruncate, ftruncate. fold fd.
    apply open_coded_status; [exact Hos | exact Hr].
Qed.

(** X10.  [blok_fsync] asks for a data-only flush exactly when the platform
    has [fdatasync] and the [datasync] flag is not 0; in every other case it
    asks for a full flush.  Either way it returns the normalized status. *)
Theorem blok_fsync_choice s path (datasync : Z) fi :
  let fd := to_int (fh fi) in
  (HAVE_FDATASYNC = true -> datasync <> 0 ->
     forall r w, os_step (Fdatasync fd) (os s) = (r, w) -> posix_answer r ->
       blok_fsync path datasync fi s =
         Returns (status_code r (fun _ => 0)) (after (Fdatasync fd) r w s)) /\
  (HAVE_FDATASYNC = false \/ datasync = 0 ->
     forall r w, os_step (Fsync fd) (os s) = (r, w) -> posix_answer r ->
       blok_fsync path datasync fi s =
         Returns (status_code r (fun _ => 0)) (after (Fsync fd) r w s)).
Proof.
  intros fd. split.
  - intros Hhave Hflag r w Hos Hr. unfold blok_fsync. rewrite Hhave.
    destruct (Z.eqb_spec datasync 0) as [E|_]; [contradiction|].
    simpl. unfold fdatasync. fold fd.
    apply normalized_status; [exact Hos | exact Hr | intros; lia].
  - intros Hcase r w Hos Hr. unfold blok_fsync.
    assert (Hsel : HAVE_FDATASYNC && negb (datasync =? 0) = false).
    { destruct Hcase as [->| ->]; [reflexivity|]. apply andb_false_r. }
    rewrite Hsel. unfold fsync. fold fd.
    apply normalized_status; [exact Hos | exact Hr | intros; lia].
Qed.

(** ** read and write *)

Lemma log_msg_run (l : log_line) s :
  log_msg l s =
    Returns tt (mkState (errno s)
                  {| rootdir := rootdir (BLOK_DATA s);
                     logfile := logfile (BLOK_DATA s) ++ [l] |}
                  (trace s) (os s)).
Proof. reflexivity. Qed.

(** X11.  [blok_read] writes one line to the log, holding the path, the
    offset and the size, and makes one [pread] at the given offset on the
    descriptor of the handle.  On success the buffer receives the bytes read
    and their number is returned; on failure the negated error number is
    returned and the buffer is untouched.  The line is logged in both
    cases. *)
Theorem blok_read_spec s path (buf : list byte) (size offset : Z) fi :
  let fd := to_int (fh fi) in
  let c := Pread fd size offset in
  let line := {| log_filename := c_str path; log_offset := offset; log_size := size |} in
  let logged s' :=
    rootdir (BLOK_DATA s') = rootdir (BLOK_DATA s) /\
    logfile (BLOK_DATA s') = logfile (BLOK_DATA s) ++ [line] /\
    trace s' = trace s ++ [c] in
  (forall data w, os_step c (os s) = (inr data, w) ->
     let n := Z.min size (Z.of_nat (length data)) in
     0 <= size <= Z.of_nat (length buf) -> n <= INT_MAX ->
     exists s',
       blok_read path buf size offset fi s =
         Returns (n, take (Z.to_nat n) data ++ drop (Z.to_nat n) buf) s' /\
       logged s' /\ os s' = w /\ errno s' = errno s) /\
  (forall e w, os_step c (os s) = (inl e, w) -> 0 < e <= INT_MAX ->
     exists s',
       blok_read path buf size offset fi s = Returns (- e, buf) s' /\
       logged s' /\ os s' = w /\ errno s' = e).
Proof.
  intros fd c line logged. split.
  - intros data w Hos n Hsize Hn.
    assert (Hn0 : 0 <= n) by (subst n; lia).
    assert (Htake : length (take (Z.to_nat n) data) = Z.to_nat n).
    { rewrite length_take. subst n. lia. }
    eexists. split; [|split; [|split]].
    + unfold blok_read, bind at 1. rewrite log_msg_run.
      unfold bind at 1. unfold pread, bind at 1. fold fd c.
      erewrite kernel_succeeds by exact Hos.
      fold n. unfold bind at 1, mem.
      rewrite write_at_0 by (rewrite Htake; lia).
      unfold ret at 1. cbv beta iota.
      rewrite to_int_small by (unfold is_int, INT_MIN; lia).
      unfold bind. rewrite wrap_return_code_nonneg by exact Hn0.
      rewrite Htake. reflexivity.
    + unfold logged. simpl. auto.
    + reflexivity.
    + reflexivity.
  - intros e w Hos He.
    eexists. split; [|split; [|split]].
    + unfold blok_read, bind at 1. rewrite log_msg_run.
      unfold bind at 1. unfold pread, bind at 1. fold fd c.
      erewrite kernel_fails by exact Hos.
      unfold ret at 1. cbv beta iota. change (to_int (-1)) with (-1).
      unfold bind.
      rewrite wrap_return_code_neg
        by (rewrite ?errno_called; unfold INT_MIN, INT_MAX in *; lia).
      rewrite errno_called. reflexivity.
    + unfold logged. simpl. auto.
    + reflexivity.
    + reflexivity.
Qed.

(** X12.  [blok_write] makes one [pwrite] of the first [size] bytes of the
    buffer at the given offset on the descriptor of the handle and returns
    the number of bytes the kernel took, or the negated error number.
    Nothing is logged. *)
Theorem blok_write_spec s path (buf : list byte) (size offset : Z) fi :
  0 <= size <= Z.of_nat (length buf) ->
  let fd := to_int (fh fi) in
  let c := Pwrite fd (take (Z.to_nat size) buf) size offset in
  (forall written w, os_step c (os s) = (inr written, w) ->
     0 <= written <= INT_MAX ->
     blok_write path buf size offset fi s =
       Returns written (called c (errno s) w s)) /\
  (forall e w, os_step c (os s) = (inl e, w) -> 0 < e <= INT_MAX ->
     blok_write path buf size offset fi s = Returns (- e) (called c e w s)).
Proof.
  intros Hsize fd c. split.
  - intros written w Hos Hw. unfold blok_write, bind, pwrite. fold fd.
    rewrite Z.min_l by lia. fold c.
    rewrite (status_succeeds _ _ _ _ _ Hos).
    rewrite to_int_small by (unfold is_int, INT_MIN; lia).
    apply wrap_return_code_nonneg. lia.
  - intros e w Hos He. unfold blok_write, bind, pwrite. fold fd.
    rewrite Z.min_l by lia. fold c.
    rewrite (status_fails _ _ _ _ _ Hos).
    change (to_int (-1)) with (-1).
    rewrite wrap_return_code_neg
      by (rewrite ?errno_called; unfold INT_MIN, INT_MAX in *; lia).
    rewrite errno_called. reflexivity.
Qed.

(** ** Handles from open to release *)

Lemma calls_of_three {A} s (a : A) (c1 c2 c3 : syscall) (e1 e2 e3 : Z)
    (w1 w2 w3 : world) :
  calls_of s (Returns a (called c3 e3 w3 (called c2 e2 w2 (called c1 e1 w1 s))))
  = [c1; c2; c3].
Proof.
  unfold calls_of. rewrite !trace_called, <- !app_assoc.
  rewrite drop_app_length. reflexivity.
Qed.

(** X13.  The descriptor [blok_open] obtains is the one later handlers act
    on: opening a file, writing through the handle and releasing it makes
    three calls, an [open] on the real path, a [pwrite] and a [close] on the
    descriptor that [open] returned, whatever the kernel answers to the last
    two. *)
Theorem blok_open_write_release s path fi (buf : list byte) (size offset : Z)
    (fd : Z) (w : world) :
  path_fits s path ->
  os_step (Open (real_path s path) (flags fi) None) (os s) = (inr fd, w) ->
  0 <= fd <= INT_MAX ->
  0 <= size <= Z.of_nat (length buf) ->
  calls_of s
    (bind (blok_open path fi) (fun o =>
     bind (blok_write path buf size offset (snd o)) (fun n =>
     bind (blok_release path (snd o)) (fun rc =>
     ret (fst o, n, rc)))) s)
  = [ Open (real_path s path) (flags fi) None;
      Pwrite fd (take (Z.to_nat size) buf) size offset;
      Close fd ].
Proof.
  intros Hfit Hos Hfd Hsize.
  unfold bind at 1. rewrite (blok_open_succeeds _ _ _ _ _ Hfit Hos Hfd).
  cbv beta iota. simpl snd. simpl fst.
  unfold bind at 1. unfold blok_write, bind at 1, pwrite. simpl fh.
  rewrite to_int_small by (unfold is_int, INT_MIN; lia).
  rewrite Z.min_l by lia.
  destruct (status_returns
              (Pwrite fd (take (Z.to_nat size) buf) size offset) (fun x => x)
              (called (Open (real_path s path) (flags fi) None) (errno s) w s))
    as (n & e2 & w2 & ->).
  destruct (wrap_return_code_returns (to_int n)
              (called (Pwrite fd (take (Z.to_nat size) buf) size offset) e2 w2
                 (called (Open (real_path s path) (flags fi) None) (errno s) w s)))
    as (rc2 & ->).
  unfold bind at 1. unfold blok_release, bind at 1, close. simpl fh.
  rewrite to_int_small by (unfold is_int, INT_MIN; lia).
  destruct (status_returns (Close fd) (fun _ => 0)
              (called (Pwrite fd (take (Z.to_nat size) buf) size offset) e2 w2
                 (called (Open (real_path s path) (flags fi) None) (errno s) w s)))
    as (r3 & e3 & w3 & ->).
  destruct (wrap_return_code_returns r3
              (called (Close fd) e3 w3
                 (called (Pwrite fd (take (Z.to_nat size) buf) size offset) e2 w2
                    (called (Open (real_path s path) (flags fi) None) (errno s) w s))))
    as (rc3 & ->).
  unfold ret. apply calls_of_three.
Qed.

(** ** Directories *)

Lemma blok_opendir_succeeds s path fi (dp : Z) (w : world) :
  path_fits s path ->
  os_step (Opendir (real_path s path)) (os s) = (inr dp, w) ->
  0 < dp <= SIZE_MAX ->
  blok_opendir path fi s =
    Returns (0, {| flags := flags fi; fh := dp |})
            (called (Opendir (real_path s path)) (errno s) w s).
Proof.
  intros Hfit Hos Hdp. unfold blok_opendir, opendir.
  destruct (fullpath_local _ _ Hfit) as (fpath & Hfp & Hstr).
  unfold bind. rewrite Hfp, Hstr, (kernel_succeeds _ _ _ _ Hos).
  unfold ret at 1. cbv beta iota.
  destruct (Z.eqb_spec dp 0) as [E|_]; [lia|].
  rewrite to_uint64_small by lia. reflexivity.
Qed.

(** X14.  [blok_opendir] stores the address of the stream in [fi->fh] and
    returns 0; when [opendir] fails it stores NULL (0) and returns the
    negated error number. *)
Theorem blok_opendir_spec s path fi :
  path_fits s path ->
  let c := Opendir (real_path s path) in
  (forall dp w, os_step c (os s) = (inr dp, w) -> 0 < dp <= SIZE_MAX ->
     blok_opendir path fi s =
       Returns (0, {| flags := flags fi; fh := dp |}) (called c (errno s) w s)) /\
  (forall e w, os_step c (os s) = (inl e, w) -> 0 < e <= INT_MAX ->
     blok_opendir path fi s =
       Returns (- e, {| flags := flags fi; fh := 0 |}) (called c e w s)).
Proof.
  intros Hfit c. split.
  - intros dp w Hos Hdp. apply blok_opendir_succeeds; assumption.
  - intros e w Hos He. apply blok_opendir_surfaces_failure; assumption.
Qed.

(** X15.  A whole listing: [blok_opendir], one [blok_readdir] with a
    callback that has room, and [blok_releasedir], run one after the other on
    a directory with at least one entry, all return 0 and the reply buffer
    holds the names of the directory's entries, each once and in the order
    of the stream, whatever [closedir] answers. *)
Theorem blok_directory_listing s path fi (fuel : nat) (dp : Z)
    (de : dirent) (rest : list dirent) (w1 w_end : world) :
  path_fits s path ->
  os_step (Opendir (real_path s path)) (os s) = (inr dp, w1) ->
  0 < dp <= SIZE_MAX ->
  stream_at dp (de :: rest) w1 w_end ->
  (length rest < fuel)%nat ->
  exists s',
    bind (blok_opendir path fi) (fun o =>
    bind (blok_readdir fuel path [] fill_dir 0 (snd o)) (fun l =>
    bind (blok_releasedir path (snd o)) (fun rc =>
    ret (fst o, l, rc)))) s
    = Returns (0, (0, map d_name (de :: rest)), 0) s' /\
    os s' = snd (os_step (Closedir dp) w_end).
Proof.
  intros Hfit Hos Hdp Hstream Hfuel.
  unfold bind at 1. rewrite (blok_opendir_succeeds _ _ _ _ _ Hfit Hos Hdp).
  cbv beta iota. simpl snd. simpl fst.
  destruct (blok_readdir_fill_dir
              (called (Opendir (real_path s path)) (errno s) w1 s) fuel path []
              0 {| flags := flags fi; fh := dp |} de rest w_end)
    as (s2 & Hrun & Hw); [| exact Hfuel |].
  { simpl fh. rewrite to_uint64_small by lia. exact Hstream. }
  unfold bind at 1. rewrite Hrun. cbv beta iota.
  unfold bind at 1. unfold blok_releasedir, bind at 1, closedir. simpl fh.
  rewrite to_uint64_small by lia.
  destruct (os_step (Closedir dp) w_end) as [r w'] eqn:Hclose.
  rewrite <- Hw in Hclose.
  destruct r as [e|v].
  - rewrite (status_fails _ _ _ _ _ Hclose). eexists. repeat split.
  - rewrite (status_succeeds _ _ _ _ _ Hclose). eexists. repeat split.
Qed.

(** ** Extended attributes *)

(** X23.  The four extended-attribute handlers make one call of the variant
    that does not follow links, on the real path.  [blok_setxattr] and
    [blok_removexattr] return its normalized status.  [blok_getxattr] and
    [blok_listxattr] return the length of what the kernel has, storing it in
    the buffer unless the size asked for is 0; when the call fails they
    return the negated error number and leave the buffer alone. *)
Theorem blok_xattr_operations s path :
  path_fits s path ->
  let fpath := real_path s path in
  (forall name value size xflags r w,
     0 <= size <= Z.of_nat (length value) ->
     let c := Lsetxattr fpath (c_str name) (take (Z.to_nat size) value) size xflags in
     os_step c (os s) = (r, w) -> posix_answer r ->
     blok_setxattr path name value size xflags s =
       Returns (status_code r (fun _ => 0)) (after c r w s)) /\
  (forall name r w,
     os_step (Lremovexattr fpath (c_str name)) (os s) = (r, w) -> posix_answer r ->
     blok_removexattr path name s =
       Returns (status_code r (fun _ => 0)) (after (Lremovexattr fpath (c_str name)) r w s)) /\
  (forall name value size r w,
     let c := Lgetxattr fpath (c_str name) size in
     os_step c (os s) = (r, w) -> posix_answer r ->
     (forall v, r = inr v ->
        Z.of_nat (length v) <= INT_MAX /\ (size <> 0 -> (length v <= length value)%nat)) ->
     blok_getxattr path name value size s =
       Returns (status_code r (fun v => Z.of_nat (length v)),
                match r with
                | inr v => if size =? 0 then value else v ++ drop (length v) value
                | inl _ => value
                end)
               (after c r w s)) /\
  (forall names size r w,
     let c := Llistxattr fpath size in
     os_step c (os s) = (r, w) -> posix_answer r ->
     (forall v, r = inr v ->
        Z.of_nat (length v) <= INT_MAX /\ (size <> 0 -> (length v <= length names)%nat)) ->
     blok_listxattr path names size s =
       Returns (status_code r (fun v => Z.of_nat (length v)),
                match r with
                | inr v => if size =? 0 then names else v ++ drop (length v) names
                | inl _ => names
                end)
               (after c r w s)).
Proof.
  intros Hfit fpath. split; [|split; [|split]].
  - intros name value size xflags r w Hsize c Hos Hr.
    unfold blok_setxattr, lsetxattr. on_real_path Hfit.
    rewrite Z.min_l by lia.
    apply normalized_status; [exact Hos | exact Hr | intros; lia].
  - intros name r w Hos Hr. unfold blok_removexattr, lremovexattr. on_real_path Hfit.
    apply normalized_status; [exact Hos | exact Hr | intros; lia].
  - intros name value size r w c Hos Hr Hv.
    unfold blok_getxattr, lgetxattr. on_real_path Hfit.
    unfold bind at 1. unfold bind at 1. fold fpath c.
    unfold after, errno_after, status_code. destruct r as [e|v].
    + rewrite (kernel_fails _ _ _ _ Hos). unfold ret at 1. cbv beta iota.
      change (to_int (-1)) with (-1). unfold bind.
      rewrite wrap_return_code_neg
        by (rewrite ?errno_called; simpl in Hr; unfold INT_MIN, INT_MAX in *; lia).
      rewrite errno_called. reflexivity.
    + rewrite (kernel_succeeds _ _ _ _ Hos).
      destruct (Hv v eq_refl) as [Hlen Hroom].
      destruct (Z.eqb_spec size 0) as [Hz|Hnz].
      * unfold ret at 1. cbv beta iota.
        rewrite to_int_small by (unfold is_int, INT_MIN; lia).
        unfold bind. rewrite wrap_return_code_nonneg by lia. reflexivity.
      * unfold bind at 1, mem. rewrite write_at_0 by (apply Hroom, Hnz).
        unfold ret at 1. cbv beta iota.
        rewrite to_int_small by (unfold is_int, INT_MIN; lia).
        unfold bind. rewrite wrap_return_code_nonneg by lia. reflexivity.
  - intros names size r w c Hos Hr Hv.
    unfold blok_listxattr, llistxattr. on_real_path Hfit.
    unfold bind at 1. unfold bind at 1. fold fpath c.
    unfold after, errno_after, status_code. destruct r as [e|v].
    + rewrite (kernel_fails _ _ _ _ Hos). unfold ret at 1. cbv beta iota.
      change (to_int (-1)) with (-1). unfold bind.
      rewrite wrap_return_code_neg
        by (rewrite ?errno_called; simpl in Hr; unfold INT_MIN, INT_MAX in *; lia).
      rewrite errno_called. reflexivity.
    + rewrite (kernel_succeeds _ _ _ _ Hos).
      destruct (Hv v eq_refl) as [Hlen Hroom].
      destruct (Z.eqb_spec size 0) as [Hz|Hnz].
      * unfold ret at 1. cbv beta iota.
        rewrite to_int_small by (unfold is_int, INT_MIN; lia).
        unfold bind. rewrite wrap_return_code_nonneg by lia. reflexivity.
      * unfold bind at 1, mem. rewrite write_at_0 by (apply Hroom, Hnz).
        unfold ret at 1. cbv beta iota.
        rewrite to_int_small by (unfold is_int, INT_MIN; lia).
        unfold bind. rewrite wrap_return_code_nonneg by lia. reflexivity.
Qed.

(** ** Paths that do not fit *)

Lemma fullpath_local_overflow {A} s path (k : list byte -> M A) :
  ~ path_fits s path ->
  bind (blok_fullpath (char_array PATH_MAX) path) k s = Undefined.
Proof.
  intros Hfit. unfold bind.
  rewrite blok_fullpath_overflow; [reflexivity | |].
  - unfold char_array. apply length_replicate.
  - unfold path_fits in Hfit. lia.
Qed.

(** X18.  A real path that does not fit in [PATH_MAX] bytes with its
    terminator is written past the end of the local array before anything
    else happens: every handler that resolves a path has no defined behaviour
    on it, and for [blok_rename] and [blok_link] this holds when either of
    the two paths does not fit. *)
Theorem blok_long_path_undefined s path :
  ~ path_fits s path ->
  blok_getattr path s = Undefined /\
  (forall link size, blok_readlink path link size s = Undefined) /\
  (forall mode dev, blok_mknod path mode dev s = Undefined) /\
  (forall mode, blok_mkdir path mode s = Undefined) /\
  blok_unlink path s = Undefined /\
  blok_rmdir path s = Undefined /\
  (forall target, blok_symlink target path s = Undefined) /\
  (forall other, blok_rename path other s = Undefined) /\
  (forall other, blok_rename other path s = Undefined) /\
  (forall other, blok_link path other s = Undefined) /\
  (forall other, blok_link other path s = Undefined) /\
  (forall mode, blok_chmod path mode s = Undefined) /\
  (forall uid gid, blok_chown path uid gid s = Undefined) /\
  (forall newsize, blok_truncate path newsize s = Undefined) /\
  (forall ubuf, blok_utime path ubuf s = Undefined) /\
  (forall fi, blok_open path fi s = Undefined) /\
  blok_statfs path s = Undefined /\
  (forall name value size xflags, blok_setxattr path name value size xflags s = Undefined) /\
  (forall name value size, blok_getxattr path name value size s = Undefined) /\
  (forall names size, blok_listxattr path names size s = Undefined) /\
  (forall name, blok_removexattr path name s = Undefined) /\
  (forall fi, blok_opendir path fi s = Undefined) /\
  (forall mask, blok_access path mask s = Undefined).
Proof.
  intros Hfit.
  assert (Hsecond : forall A other (k : list byte -> list byte -> M A),
            bind (blok_fullpath (char_array PATH_MAX) other)
                 (fun f1 => bind (blok_fullpath (char_array PATH_MAX) path) (k f1)) s
            = Undefined).
  { intros A other k.
    destruct (Nat.lt_ge_cases
                (strlen (rootdir (BLOK_DATA s)) + strlen other) PATH_MAX) as [Hother|Hother].
    - destruct (fullpath_local s other Hother) as (f1 & Hf1 & _).
      unfold bind at 1. rewrite Hf1. apply fullpath_local_overflow, Hfit.
    - apply fullpath_local_overflow. unfold path_fits. lia. }
  repeat split; intros;
    try (apply fullpath_local_overflow; exact Hfit);
    apply Hsecond.
Qed.

(** ** The mount's private data *)

Lemma keeps_ret {A} (a : A) : keeps_session (ret a).
Proof. intros s a' s' [= _ ->]. reflexivity. Qed.

Lemma keeps_bind {A B} (m : M A) (k : A -> M B) :
  keeps_session m -> (forall a, keeps_session (k a)) -> keeps_session (bind m k).
Proof.
  intros Hm Hk s b s' Hrun. unfold bind in Hrun.
  destruct (m s) as [a s1| |] eqn:Hms; try discriminate.
  rewrite (Hk a s1 b s' Hrun). apply (Hm s a s1 Hms).
Qed.

Lemma keeps_kernel (c : syscall) : keeps_session (kernel c).
Proof.
  intros s a s' Hrun. unfold kernel in Hrun.
  destruct (os_step c (os s)) as [[e|v] w]; injection Hrun as _ <-; reflexivity.
Qed.

Lemma keeps_mem {A} (o : option A) : keeps_session (mem o).
Proof. intros s a s' Hrun. destruct o; [injection Hrun as _ <-; reflexivity | discriminate]. Qed.

Lemma keeps_get_errno : keeps_session get_errno.
Proof. intros s a s' [= _ ->]. reflexivity. Qed.

Lemma keeps_out_of_fuel {A} : keeps_session (@out_of_fuel P A).
Proof. intros s a s' Hrun. discriminate. Qed.

Lemma keeps_fullpath (buf path : list byte) : keeps_session (blok_fullpath buf path).
Proof.
  intros s a s' Hrun. unfold blok_fullpath, bind, mem in Hrun.
  destruct (strcpy buf (rootdir (BLOK_DATA s))) as [f1|]; [|discriminate].
  destruct (strncat f1 path PATH_MAX); [|discriminate].
  injection Hrun as _ <-. reflexivity.
Qed.

Ltac keeps :=
  repeat first
    [ apply keeps_ret | apply keeps_kernel | apply keeps_mem | apply keeps_get_errno
    | apply keeps_fullpath | apply keeps_out_of_fuel
    | apply keeps_bind; [|intros ?]
    | match goal with
      | |- keeps_session (if ?b then _ else _) => destruct b
      | |- keeps_session (match ?x with _ => _ end) => destruct x
      end ].

Lemma keeps_readdir_loop {B} (filler : fuse_fill_dir_t B) (dp retstat : Z) :
  forall (fuel : nat) (buf : B) (de : dirent),
    keeps_session (blok_readdir_loop fuel buf filler dp retstat de).
Proof.
  induction fuel as [|fuel IH]; intros buf de; simpl.
  - apply keeps_out_of_fuel.
  - destruct (filler buf (d_name de) None 0) as [full buf1].
    destruct (negb (full =? 0)); [apply keeps_ret|].
    apply keeps_bind; [unfold readdir; keeps|].
    intros [de'|]; [apply IH | apply keeps_ret].
Qed.

(** X19.  No handler other than [blok_read] changes the private data of the
    mount: whenever one of them returns, the root directory and the log are
    what they were before the call. *)
Theorem blok_handlers_keep_session :
  (forall path, keeps_session (blok_getattr path)) /\
  (forall path link size, keeps_session (blok_readlink path link size)) /\
  (forall path mode dev, keeps_session (blok_mknod path mode dev)) /\
  (forall path mode, keeps_session (blok_mkdir path mode)) /\
  (forall path, keeps_session (blok_unlink path)) /\
  (forall path, keeps_session (blok_rmdir path)) /\
  (forall path link, keeps_session (blok_symlink path link)) /\
  (forall path newpath, keeps_session (blok_rename path newpath)) /\
  (forall path newpath, keeps_session (blok_link path newpath)) /\
  (forall path mode, keeps_session (blok_chmod path mode)) /\
  (forall path uid gid, keeps_session (blok_chown path uid gid)) /\
  (forall path newsize, keeps_session (blok_truncate path newsize)) /\
  (forall path ubuf, keeps_session (blok_utime path ubuf)) /\
  (forall path fi, keeps_session (blok_open path fi)) /\
  (forall path buf size offset fi, keeps_session (blok_write path buf size offset fi)) /\
  (forall path, keeps_session (blok_statfs path)) /\
  (forall path fi, keeps_session (blok_flush path fi)) /\
  (forall path fi, keeps_session (blok_release path fi)) /\
  (forall path datasync fi, keeps_session (blok_fsync path datasync fi)) /\
  (forall path name value size xflags,
     keeps_session (blok_setxattr path name value size xflags)) /\
  (forall path name value size, keeps_session (blok_getxattr path name value size)) /\
  (forall path names size, keeps_session (blok_listxattr path names size)) /\
  (forall path name, keeps_session (blok_removexattr path name)) /\
  (forall path fi, keeps_session (blok_opendir path fi)) /\
  (forall B fuel path (buf : B) filler offset fi,
     keeps_session (blok_readdir fuel path buf filler offset fi)) /\
  (forall path fi, keeps_session (blok_releasedir path fi)) /\
  (forall path datasync fi, keeps_session (blok_fsyncdir path datasync fi)) /\
  keeps_session blok_init /\
  (forall userdata, keeps_session (blok_destroy userdata)) /\
  (forall path mask, keeps_session (blok_access path mask)) /\
  (forall path offset fi, keeps_session (blok_ftruncate path offset fi)) /\
  (forall path fi, keeps_session (blok_fgetattr path fi)).
Proof.
  repeat split; intros;
    try (intros s0 a0 s0' [= _ ->]; reflexivity);
    unfold blok_getattr, blok_readlink, blok_mknod, blok_mkdir, blok_unlink, blok_rmdir,
      blok_symlink, blok_rename, blok_link, blok_chmod, blok_chown, blok_truncate,
      blok_utime, blok_open, blok_write, blok_statfs, blok_flush, blok_release,
      blok_fsync, blok_setxattr, blok_getxattr, blok_listxattr, blok_removexattr,
      blok_opendir, blok_readdir, blok_releasedir, blok_fsyncdir, blok_destroy,
      blok_access, blok_ftruncate, blok_fgetattr, blok_getattr,
      lstat, fstat, statvfs, readlink, open, close, mkfifo, mknod, mkdir, unlink,
      rmdir, symlink, rename, link, chmod, chown, truncate, utime, pwrite,
      fdatasync, fsync, lsetxattr, lgetxattr, llistxattr, lremovexattr, opendir,
      readdir, closedir, access, ftruncate, status, wrap_return_code;
    keeps;
    try apply keeps_readdir_loop.
Qed.

End Handlers.

(** * Start-up *)

Lemma main_last_two (opts : list (list byte)) (root mnt : list byte) :
  let argv := opts ++ [root; mnt] in
  length argv = S (S (length opts)) /\
  nth (length argv - 2) argv [] = root /\
  nth (length argv - 1) argv [] = mnt.
Proof.
  simpl. rewrite length_app. simpl.
  replace (length opts + 2 - 2)%nat with (length opts) by lia.
  replace (length opts + 2 - 1)%nat with (S (length opts)) by lia.
  split; [lia|]. split.
  - rewrite app_nth2 by lia. rewrite Nat.sub_diag. reflexivity.
  - rewrite app_nth2 by lia.
    replace (S (length opts) - length opts)%nat with 1%nat by lia. reflexivity.
Qed.

Lemma main_passes_check (env : startup) (opts : list (list byte)) (root mnt : list byte) :
  opts <> [] ->
  first_char root <> "-"%byte ->
  first_char mnt <> "-"%byte ->
  main env (opts ++ [root; mnt]) =
    if negb (malloc_ok env) then Aborted
    else match log_open env with
         | inl stop => stop
         | inr _ => Exited (fuse_main env (opts ++ [mnt]) (realpath env (c_str root)))
         end.
Proof.
  intros Hopts Hroot Hmnt. unfold main.
  destruct (main_last_two opts root mnt) as (Hlen & Hnth2 & Hnth1).
  simpl in Hlen, Hnth2, Hnth1. rewrite Hnth2, Hnth1, Hlen.
  assert (Hargc : (S (S (length opts)) <? 3)%nat = false).
  { apply Nat.ltb_ge. destruct opts; [contradiction|]. simpl. lia. }
  rewrite Hargc.
  assert (Hne : forall b : byte, b <> "-"%byte -> Byte.eqb b "-"%byte = false).
  { intros b Hb. destruct (Byte.eqb b "-"%byte) eqn:E; [|reflexivity].
    apply Byte.byte_dec_bl in E. contradiction. }
  pose proof (Hne _ Hroot) as Hr. pose proof (Hne _ Hmnt) as Hm.
  rewrite Hr, Hm. simpl orb. cbv iota.
  destruct (negb (malloc_ok env)); [reflexivity|].
  destruct (log_open env) as [stop|f]; [reflexivity|].
  do 2 f_equal.
  replace (S (S (length opts)) - 2)%nat with (length opts) by lia.
  replace (S (S (length opts)) - 1)%nat with (S (length opts)) by lia.
  rewrite insert_app_r_alt by lia. rewrite Nat.sub_diag. simpl.
  replace (S (length opts)) with (length opts + 1)%nat by lia.
  rewrite take_app_add'; reflexivity.
Qed.

(** X20.  Called as [blok options... rootDir mountPoint], with neither of
    the last two arguments starting with a hyphen, [main] hands over to
    [fuse_main] the command line without the root directory, the mount point
    now last, and the root directory as [realpath] resolved it; its exit
    status is what [fuse_main] returns.  The result of [realpath] is not
    checked: when it fails the mount still starts, with no root directory. *)
Theorem main_hands_over (env : startup) (opts : list (list byte)) (root mnt : list byte) :
  opts <> [] ->
  first_char root <> "-"%byte ->
  first_char mnt <> "-"%byte ->
  malloc_ok env = true ->
  fopen_ok env = true ->
  main env (opts ++ [root; mnt]) =
    Exited (fuse_main env (opts ++ [mnt]) (realpath env (c_str root))).
Proof.
  intros Hopts Hroot Hmnt Hmalloc Hfopen.
  rewrite main_passes_check by assumption.
  unfold log_open. rewrite Hmalloc, Hfopen. reflexivity.
Qed.

(** X21.  With fewer than two arguments after the program's name, or with a
    root directory or mount point that starts with a hyphen, [main] stops in
    [blok_usage], which aborts: nothing is allocated, resolved, opened or
    mounted, whatever the environment. *)
Theorem main_usage (env : startup) (argv : list (list byte)) :
  (length argv < 3)%nat \/
  (exists opts root mnt,
     argv = opts ++ [root; mnt] /\
     (first_char root = "-"%byte \/ first_char mnt = "-"%byte)) ->
  main env argv = Aborted.
Proof.
  intros [Hshort | (opts & root & mnt & -> & Hhyphen)]; unfold main.
  - apply Nat.ltb_lt in Hshort. rewrite Hshort. reflexivity.
  - destruct (main_last_two opts root mnt) as (_ & Hnth2 & Hnth1).
    simpl in Hnth2, Hnth1. rewrite Hnth2, Hnth1.
    destruct Hhyphen as [-> | ->]; simpl;
      rewrite ?orb_true_r; reflexivity.
Qed.

(** X22.  Past the check of the command line, [main] aborts when the
    private data cannot be allocated, and exits with EXIT_FAILURE when the
    log file cannot be opened; in neither case is [fuse_main] reached. *)
Theorem main_startup_failure (env : startup) (opts : list (list byte))
    (root mnt : list byte) :
  opts <> [] ->
  first_char root <> "-"%byte ->
  first_char mnt <> "-"%byte ->
  (malloc_ok env = false -> main env (opts ++ [root; mnt]) = Aborted) /\
  (malloc_ok env = true -> fopen_ok env = false ->
     main env (opts ++ [root; mnt]) = Exited EXIT_FAILURE).
Proof.
  intros Hopts Hroot Hmnt.
  rewrite main_passes_check by assumption.
  unfold log_open. split.
  - intros ->. reflexivity.
  - intros -> ->. reflexivity.
Qed.

(** * The theorems at work on the small kernel *)

Section Runs.

(** The path resolver leaves "." and ".." segments where they are. *)
Example blok_fullpath_keeps_dots :
  exists fpath,
    blok_fullpath (P := toy) (char_array 4096) (lit "/a/./../b") toy_state0
      = Returns fpath toy_state0 /\
    c_str fpath = lit "/srv/a/./../b".
Proof.
  eexists. split; vm_compute; reflexivity.
Qed.

Lemma blok_fullpath_concat_witness :
  exists fpath,
    blok_fullpath (P := toy) (char_array 4096) (lit "/a/../b") toy_state0
      = Returns fpath toy_state0 /\
    c_str fpath = lit "/srv" ++ lit "/a/../b".
Proof.
  apply (blok_fullpath_concat (P := toy) toy_state0 (char_array 4096) (lit "/a/../b")).
  - vm_compute. reflexivity.
  - apply Nat.ltb_lt. vm_compute. reflexivity.
Defined.

Lemma wrap_return_code_spec_witness :
  wrap_return_code (P := toy) (-1) (toy_state 2 toy_world0)
    = Returns (-2) (toy_state 2 toy_world0) /\
  wrap_return_code (P := toy) 7 (toy_state 2 toy_world0)
    = Returns 7 (toy_state 2 toy_world0).
Proof.
  destruct (wrap_return_code_spec (P := toy) (toy_state 2 toy_world0) (-1)) as [Hneg _].
  { unfold INT_MIN, INT_MAX. simpl. lia. }
  destruct (wrap_return_code_spec (P := toy) (toy_state 2 toy_world0) 7) as [_ Hpos].
  { unfold INT_MIN, INT_MAX. simpl. lia. }
  split; [apply Hneg; lia | apply Hpos; lia].
Defined.

Lemma toy_path_fits (e : Z) (w : toy_world) (path : list byte) :
  (length (c_str path) <? 4092)%nat = true ->
  path_fits (P := toy) (toy_state e w) path.
Proof.
  intros H%Nat.ltb_lt. unfold path_fits, strlen.
  change (length (c_str (rootdir (BLOK_DATA (toy_state e w))))) with 4%nat.
  change (@PATH_MAX toy) with (4 + 4092)%nat. lia.
Defined.

(** Opening the file of the mount yields descriptor 0, which is stored and
    reported as success; opening a missing file stores and returns
    -ENOENT. *)
Lemma blok_open_handle_slot_witness :
  blok_open (P := toy) (lit "/f") {| flags := O_RDONLY; fh := 99 |} toy_state0 =
    Returns (0, {| flags := O_RDONLY; fh := 0 |})
      (called (P := toy) (Open (lit "/srv/f") O_RDONLY None) 0
         {| toy_files := [lit "/srv/f"];
            toy_links := [(lit "/srv/l", lit "target-of-link")];
            toy_fds := [0]; toy_dirs := [(7, toy_entries)] |}
         toy_state0) /\
  exists slot,
    blok_open (P := toy) (lit "/nope") {| flags := O_RDONLY; fh := 99 |} toy_state0 =
      Returns (- ENOENT, {| flags := O_RDONLY; fh := slot |})
        (called (P := toy) (Open (lit "/srv/nope") O_RDONLY None) ENOENT toy_world0
           toy_state0) /\
    slot = to_uint64 (- ENOENT) /\ slot <> 0 /\
    to_int slot = - ENOENT /\ to_int slot < 0.
Proof.
  split.
  - destruct (blok_open_handle_slot (P := toy) toy_state0 (lit "/f")
                {| flags := O_RDONLY; fh := 99 |}) as (Hzero & _ & _).
    { apply toy_path_fits. reflexivity. }
    apply Hzero. reflexivity.
  - destruct (blok_open_handle_slot (P := toy) toy_state0 (lit "/nope")
                {| flags := O_RDONLY; fh := 99 |}) as (_ & _ & Hfail).
    { apply toy_path_fits. reflexivity. }
    apply Hfail; [reflexivity|]. unfold ENOENT, INT_MAX. lia.
Defined.

(** Closing a stream the kernel does not know fails with EBADF, and
    [blok_releasedir] returns 0 all the same. *)
Lemma blok_releasedir_swallows_failure_witness :
  blok_releasedir (P := toy) (lit "/d") {| flags := 0; fh := 8 |} toy_state0 =
    Returns 0 (called (P := toy) (Closedir 8) EBADF toy_world0 toy_state0) /\
  blok_releasedir (P := toy) (lit "/d") {| flags := 0; fh := 8 |} toy_state0 <>
    Returns (- EBADF) (called (P := toy) (Closedir 8) EBADF toy_world0 toy_state0).
Proof.
  apply (blok_releasedir_swallows_failure (P := toy) toy_state0 (lit "/d")
           {| flags := 0; fh := 8 |} EBADF toy_world0).
  - reflexivity.
  - unfold EBADF, INT_MAX. lia.
Defined.

(** The sibling handler on the same kind of input: a descriptor the kernel
    does not know. *)
Example blok_release_bad_descriptor :
  blok_release (P := toy) (lit "/f") {| flags := 0; fh := 8 |} toy_state0 =
    Returns (- EBADF) (called (P := toy) (Close 8) EBADF toy_world0 toy_state0).
Proof. reflexivity. Qed.

Lemma blok_fgetattr_spec_witness :
  (blok_fgetattr (P := toy) (lit "/") {| flags := 0; fh := 3 |} toy_state0 =
     blok_getattr (P := toy) (lit "/") toy_state0 /\
   forall fi', blok_fgetattr (P := toy) (lit "/") fi' toy_state0 =
               blok_fgetattr (P := toy) (lit "/") {| flags := 0; fh := 3 |} toy_state0) /\
  blok_fgetattr (P := toy) (lit "/f") {| flags := 0; fh := 3 |} toy_state0 =
    fstat_normalized (P := toy) {| flags := 0; fh := 3 |} toy_state0.
Proof.
  split.
  - apply (blok_fgetattr_spec (P := toy) toy_state0 (lit "/") {| flags := 0; fh := 3 |}).
    reflexivity.
  - apply (blok_fgetattr_spec (P := toy) toy_state0 (lit "/f") {| flags := 0; fh := 3 |}).
    vm_compute. discriminate.
Defined.

(** A stale [errno] of 5 comes back as -5 from an exhausted stream. *)
Lemma blok_readdir_first_null_witness :
  blok_readdir (P := toy) 0 (lit "/d") [] fill_dir 0 toy_dir_handle
      (toy_state 5 toy_world_end) =
    Returns (-5, [])
      (called (P := toy) (Readdir 7) 5 toy_world_end (toy_state 5 toy_world_end)) /\
  blok_readdir (P := toy) 0 (lit "/d") [] fill_dir 0 {| flags := 0; fh := 8 |}
      (toy_state 5 toy_world_end) =
    Returns (- EBADF, [])
      (called (P := toy) (Readdir 8) EBADF toy_world_end (toy_state 5 toy_world_end)).
Proof.
  split.
  - destruct (blok_readdir_first_null (P := toy) (toy_state 5 toy_world_end) 0 (lit "/d")
                ([] : list (list byte)) fill_dir 0 toy_dir_handle) as [Hend _].
    apply (Hend toy_world_end); [reflexivity|].
    unfold INT_MIN, INT_MAX. simpl. lia.
  - destruct (blok_readdir_first_null (P := toy) (toy_state 5 toy_world_end) 0 (lit "/d")
                ([] : list (list byte)) fill_dir 0 {| flags := 0; fh := 8 |}) as [_ Hfail].
    apply (Hfail EBADF toy_world_end); [reflexivity|].
    unfold INT_MIN, INT_MAX, EBADF. lia.
Defined.

(** A FIFO (mode 010644) goes to [mkfifo]; a new regular file (mode
    0100644) is opened for creation and closed; a character device (mode
    020644) goes to [mknod]. *)
Lemma blok_mknod_dispatch_witness :
  calls_of (P := toy) toy_state0 (blok_mknod (P := toy) (lit "/p") 4516 0 toy_state0) =
    [Mkfifo (lit "/srv/p") 4516] /\
  calls_of (P := toy) toy_state0 (blok_mknod (P := toy) (lit "/new") 33188 0 toy_state0) =
    [Open (lit "/srv/new") 193 (Some 33188); Close 0] /\
  calls_of (P := toy) toy_state0 (blok_mknod (P := toy) (lit "/f") 33188 0 toy_state0) =
    [Open (lit "/srv/f") 193 (Some 33188)] /\
  calls_of (P := toy) toy_state0 (blok_mknod (P := toy) (lit "/c") 8612 259 toy_state0) =
    [Mknod (lit "/srv/c") 8612 259] /\
  (forall p m d,
     Mknod p m d ∉
       calls_of (P := toy) toy_state0 (blok_mknod (P := toy) (lit "/p") 4516 0 toy_state0)).
Proof.
  destruct (blok_mknod_dispatch (P := toy) toy_state0 (lit "/p") 4516 0)
    as (_ & Hfifo & _ & Hnever).
  { apply toy_path_fits. reflexivity. }
  destruct (blok_mknod_dispatch (P := toy) toy_state0 (lit "/new") 33188 0)
    as (Hnew & _).
  { apply toy_path_fits. reflexivity. }
  destruct (blok_mknod_dispatch (P := toy) toy_state0 (lit "/f") 33188 0)
    as (Hold & _).
  { apply toy_path_fits. reflexivity. }
  destruct (blok_mknod_dispatch (P := toy) toy_state0 (lit "/c") 8612 259)
    as (_ & _ & Hdev & _).
  { apply toy_path_fits. reflexivity. }
  split; [apply Hfifo; reflexivity|].
  split.
  { destruct (Hnew eq_refl) as [Hok _].
    eapply Hok; [reflexivity|lia]. }
  split.
  { destruct (Hold eq_refl) as [_ Hfail].
    eapply (Hfail EEXIST); [reflexivity|]. unfold EEXIST, INT_MAX. lia. }
  split; [apply Hdev; reflexivity|].
  apply Hnever. reflexivity.
Defined.

(** A link of 14 bytes read into a buffer of 5: four bytes and the
    terminator, and the handler returns 0. *)
Lemma blok_readlink_spec_witness :
  blok_readlink (P := toy) (lit "/l") (replicate 5 "x"%byte) 5 toy_state0 =
    Returns (0, lit "targ" ++ [NUL])
      (called (P := toy) (Readlink (lit "/srv/l") 4) 0 toy_world0 toy_state0).
Proof.
  destruct (blok_readlink_spec (P := toy) toy_state0 (lit "/l") (replicate 5 "x"%byte) 5
              (lit "target-of-link") toy_world0) as (Hrun & _ & _).
  - apply toy_path_fits. reflexivity.
  - reflexivity.
  - unfold SIZE_MAX. lia.
  - reflexivity.
  - unfold INT_MAX. simpl. lia.
  - exact Hrun.
Defined.

(** A link shorter than the buffer: the terminator follows its last byte
    and the rest of the buffer is untouched. *)
Example blok_readlink_short_link :
  blok_readlink (P := toy) (lit "/l") (replicate 20 "x"%byte) 20 toy_state0 =
    Returns (0, lit "target-of-link" ++ [NUL] ++ lit "xxxxx")
      (called (P := toy) (Readlink (lit "/srv/l") 19) 0 toy_world0 toy_state0).
Proof. vm_compute. reflexivity. Qed.

Lemma toy_stream_at :
  stream_at (P := toy) 7 toy_entries toy_world0 toy_world_end.
Proof.
  simpl. eexists. split; [reflexivity|].
  eexists. split; [reflexivity|].
  eexists. split; [reflexivity|].
  reflexivity.
Defined.

(** One call lists the three entries when the callback has room, and returns
    -ENOMEM when it has room for two. *)
Lemma blok_readdir_lists_stream_witness :
  (exists s',
     blok_readdir (P := toy) 3 (lit "/d") [] fill_dir 0 toy_dir_handle toy_state0 =
       Returns (0, [lit "a"; lit "b"; lit "c"]) s' /\
     os s' = toy_world_end /\ errno s' = 0) /\
  (exists s',
     blok_readdir (P := toy) 3 (lit "/d") [] (fill_dir_bounded 2) 0 toy_dir_handle
         toy_state0 =
       Returns (- ENOMEM, [lit "a"; lit "b"]) s').
Proof.
  split.
  - destruct (blok_readdir_lists_stream (P := toy) toy_state0 3 (lit "/d")
                ([] : list (list byte)) fill_dir 0 toy_dir_handle
                {| d_ino := 11; d_name := lit "a" |}
                [ {| d_ino := 12; d_name := lit "b" |};
                  {| d_ino := 13; d_name := lit "c" |} ]
                toy_world_end) as [Hok _].
    + exact toy_stream_at.
    + simpl. lia.
    + apply Hok. reflexivity.
  - destruct (blok_readdir_lists_stream (P := toy) toy_state0 3 (lit "/d")
                ([] : list (list byte)) (fill_dir_bounded 2) 0 toy_dir_handle
                {| d_ino := 11; d_name := lit "a" |}
                [ {| d_ino := 12; d_name := lit "b" |};
                  {| d_ino := 13; d_name := lit "c" |} ]
                toy_world_end) as [_ Hfull].
    + exact toy_stream_at.
    + simpl. lia.
    + apply Hfull. vm_compute. discriminate.
Defined.

(** C4 as stated fails.  The stream of handle 7 stands at the first of its
    three entries a, b, c, and the callback reports a full buffer after one
    name.  The first call passes a, is refused b and returns -ENOMEM; the
    second passes c and returns 0; the third finds the stream at its end.
    The stream is exhausted and b was never reported: the entry on which the
    callback fails has been taken from the stream and is lost. *)
Lemma blok_readdir_drops_refused_entry :
  stream_at (P := toy) 7 toy_entries toy_world0 toy_world_end /\
  (exists s1 s2 s3,
     blok_readdir (P := toy) 3 (lit "/d") [] (fill_dir_bounded 1) 0 toy_dir_handle
         toy_state0 = Returns (- ENOMEM, [lit "a"]) s1 /\
     blok_readdir (P := toy) 3 (lit "/d") [] (fill_dir_bounded 1) 0 toy_dir_handle
         s1 = Returns (0, [lit "c"]) s2 /\
     blok_readdir (P := toy) 3 (lit "/d") [] (fill_dir_bounded 1) 0 toy_dir_handle
         s2 = Returns (0, []) s3 /\
     os s2 = toy_world_end /\ os s3 = toy_world_end) /\
  (exists s',
     readdir_repeatedly (P := toy) 3 3 (lit "/d") (fill_dir_bounded 1) toy_dir_handle
         toy_state0 = Returns [lit "a"; lit "c"] s' /\
     os s' = toy_world_end) /\
  lit "b" ∈ map d_name toy_entries /\
  lit "b" ∉ [lit "a"; lit "c"].
Proof.
  split; [exact toy_stream_at|].
  split.
  { do 3 eexists.
    split; [vm_compute; reflexivity|].
    split; [vm_compute; reflexivity|].
    split; [vm_compute; reflexivity|].
    split; reflexivity. }
  split.
  { eexists. split; [vm_compute; reflexivity|reflexivity]. }
  split.
  - apply list_elem_of_In. vm_compute. auto.
  - intros H%list_elem_of_In. vm_compute in H. intuition discriminate.
Qed.

End Runs.

(** * The rest of the driver at work *)

Section MoreRuns.

Lemma disk_path_fits (path : list byte) :
  (length (c_str path) <? 4092)%nat = true ->
  path_fits (P := disk) disk_state0 path.
Proof.
  intros H%Nat.ltb_lt. unfold path_fits, strlen.
  change (length (c_str (rootdir (BLOK_DATA disk_state0)))) with 4%nat.
  change (@PATH_MAX disk) with (4 + 4092)%nat. lia.
Defined.

Lemma enosys_answer {A} : posix_answer (inl ENOSYS : Z + A).
Proof. simpl. unfold ENOSYS, INT_MAX. lia. Defined.

Lemma blok_tree_operations_witness :
  (exists s', blok_mkdir (P := toy) (lit "/d") 493 toy_state0 = Returns 0 s') /\
  (exists s', blok_unlink (P := toy) (lit "/f") toy_state0 = Returns (- ENOSYS) s') /\
  (exists s', blok_rmdir (P := toy) (lit "/d") toy_state0 = Returns (- ENOSYS) s').
Proof.
  destruct (blok_tree_operations (P := toy) toy_state0 (lit "/d")) as (Hmkdir & _ & Hrmdir).
  { apply toy_path_fits. reflexivity. }
  destruct (blok_tree_operations (P := toy) toy_state0 (lit "/f")) as (_ & Hunlink & _).
  { apply toy_path_fits. reflexivity. }
  split; [|split]; eexists.
  - apply (Hmkdir 493 (inr tt) toy_world0); [reflexivity | exact I].
  - apply (Hunlink (inl ENOSYS) toy_world0); [reflexivity | apply enosys_answer].
  - apply (Hrmdir (inl ENOSYS) toy_world0); [reflexivity | apply enosys_answer].
Defined.

Lemma blok_attribute_operations_witness :
  (exists s', blok_chmod (P := toy) (lit "/f") 420 toy_state0 = Returns (- ENOSYS) s') /\
  (exists s', blok_access (P := toy) (lit "/f") 4 toy_state0 = Returns (- ENOSYS) s').
Proof.
  destruct (blok_attribute_operations (P := toy) toy_state0 (lit "/f"))
    as (Hchmod & _ & _ & _ & Haccess).
  { apply toy_path_fits. reflexivity. }
  split; eexists.
  - apply (Hchmod 420 (inl ENOSYS) toy_world0); [reflexivity | apply enosys_answer].
  - apply (Haccess 4 (inl ENOSYS) toy_world0); [reflexivity | apply enosys_answer].
Defined.

(** The target "../elsewhere" reaches the kernel as it is. *)
Lemma blok_symlink_target_unresolved_witness :
  blok_symlink (P := toy) (lit "../elsewhere") (lit "/ln") toy_state0 =
    Returns (- ENOSYS)
      (called (P := toy) (Symlink (lit "../elsewhere") (lit "/srv/ln")) ENOSYS
         toy_world0 toy_state0).
Proof.
  apply (blok_symlink_target_unresolved (P := toy) toy_state0 (lit "../elsewhere")
           (lit "/ln") (inl ENOSYS) toy_world0).
  - apply toy_path_fits. reflexivity.
  - reflexivity.
  - apply (@enosys_answer unit).
Defined.

Lemma blok_rename_link_both_resolved_witness :
  blok_rename (P := toy) (lit "/a") (lit "/b") toy_state0 =
    Returns (- ENOSYS)
      (called (P := toy) (Rename (lit "/srv/a") (lit "/srv/b")) ENOSYS toy_world0
         toy_state0) /\
  blok_link (P := toy) (lit "/a") (lit "/b") toy_state0 =
    Returns (- ENOSYS)
      (called (P := toy) (Link (lit "/srv/a") (lit "/srv/b")) ENOSYS toy_world0
         toy_state0).
Proof.
  destruct (blok_rename_link_both_resolved (P := toy) toy_state0 (lit "/a") (lit "/b"))
    as (Hrename & Hlink).
  { apply toy_path_fits. reflexivity. }
  { apply toy_path_fits. reflexivity. }
  split.
  - apply (Hrename (inl ENOSYS) toy_world0); [reflexivity | apply enosys_answer].
  - apply (Hlink (inl ENOSYS) toy_world0); [reflexivity | apply enosys_answer].
Defined.

Lemma blok_getattr_statfs_witness :
  blok_getattr (P := toy) (lit "/f") toy_state0 =
    Returns (0, Some (toy_stat S_IFREG 0))
      (called (P := toy) (Lstat (lit "/srv/f")) 0 toy_world0 toy_state0) /\
  blok_statfs (P := toy) (lit "/f") toy_state0 =
    Returns (- ENOSYS, None)
      (called (P := toy) (Statvfs (lit "/srv/f")) ENOSYS toy_world0 toy_state0).
Proof.
  destruct (blok_getattr_statfs (P := toy) toy_state0 (lit "/f")) as (Hgetattr & Hstatfs).
  { apply toy_path_fits. reflexivity. }
  split.
  - apply (Hgetattr (inr (toy_stat S_IFREG 0)) toy_world0); [reflexivity | exact I].
  - apply (Hstatfs (inl ENOSYS) toy_world0); [reflexivity | apply enosys_answer].
Defined.

Lemma blok_readlink_failure_witness :
  blok_readlink (P := toy) (lit "/f") (replicate 5 "x"%byte) 5 toy_state0 =
    Returns (- ENOENT, replicate 5 "x"%byte)
      (called (P := toy) (Readlink (lit "/srv/f") 4) ENOENT toy_world0 toy_state0).
Proof.
  apply (blok_readlink_failure (P := toy) toy_state0 (lit "/f") (replicate 5 "x"%byte) 5
           ENOENT toy_world0).
  - apply toy_path_fits. reflexivity.
  - unfold SIZE_MAX. lia.
  - reflexivity.
  - unfold ENOENT, INT_MAX. lia.
Defined.


(** Creating /new: the file is opened for creation and closed, status 0;
    creating /f, which exists, fails with EEXIST. *)
Lemma blok_mknod_status_witness :
  (exists s', blok_mknod (P := toy) (lit "/new") 33188 0 toy_state0 = Returns 0 s') /\
  (exists s', blok_mknod (P := toy) (lit "/f") 33188 0 toy_state0 = Returns (- EEXIST) s') /\
  (exists s', blok_mknod (P := toy) (lit "/p") 4516 0 toy_state0 = Returns 0 s').
Proof.
  destruct (blok_mknod_status (P := toy) toy_state0 (lit "/new") 33188 0) as (Hnew & _).
  { apply toy_path_fits. reflexivity. }
  destruct (blok_mknod_status (P := toy) toy_state0 (lit "/f") 33188 0) as (Hold & _).
  { apply toy_path_fits. reflexivity. }
  destruct (blok_mknod_status (P := toy) toy_state0 (lit "/p") 4516 0) as (_ & Hfifo & _).
  { apply toy_path_fits. reflexivity. }
  split; [|split]; eexists.
  - destruct (Hnew eq_refl) as [_ Hok].
    eapply (Hok 0 _ (inr tt)); [reflexivity | lia | reflexivity | exact I].
  - destruct (Hold eq_refl) as [Hfail _].
    eapply (Hfail EEXIST); [reflexivity|]. unfold EEXIST, INT_MAX. lia.
  - eapply (Hfifo eq_refl eq_refl (inr tt)); [reflexivity | exact I].
Defined.

Lemma blok_release_ftruncate_witness :
  (exists s',
     blok_release (P := disk) (lit "/f") {| flags := 0; fh := 3 |} disk_state0
       = Returns 0 s') /\
  (exists s',
     blok_release (P := toy) (lit "/f") {| flags := 0; fh := 8 |} toy_state0
       = Returns (- EBADF) s') /\
  (exists s',
     blok_ftruncate (P := toy) (lit "/f") 10 {| flags := 0; fh := 8 |} toy_state0
       = Returns (- ENOSYS) s').
Proof.
  destruct (blok_release_ftruncate (P := disk) disk_state0 (lit "/f")
              {| flags := 0; fh := 3 |}) as (Hclose & _).
  destruct (blok_release_ftruncate (P := toy) toy_state0 (lit "/f")
              {| flags := 0; fh := 8 |}) as (Hbad & Htrunc).
  split; [|split]; eexists.
  - apply (Hclose (inr tt) disk_world0); [reflexivity | exact I].
  - apply (Hbad (inl EBADF) toy_world0); [reflexivity|].
    simpl. unfold EBADF, INT_MAX. lia.
  - apply (Htrunc 10 (inl ENOSYS) toy_world0); [reflexivity | apply enosys_answer].
Defined.

(** With [fdatasync] at hand and the flag set, the data-only flush is asked
    for; without it, the full one. *)
Lemma blok_fsync_choice_witness :
  blok_fsync (P := toy) (lit "/f") 1 {| flags := 0; fh := 3 |} toy_state0 =
    Returns (- ENOSYS) (called (P := toy) (Fdatasync 3) ENOSYS toy_world0 toy_state0) /\
  blok_fsync (P := disk) (lit "/f") 1 {| flags := 0; fh := 3 |} disk_state0 =
    Returns (- ENOSYS) (called (P := disk) (Fsync 3) ENOSYS disk_world0 disk_state0).
Proof.
  destruct (blok_fsync_choice (P := toy) toy_state0 (lit "/f") 1
              {| flags := 0; fh := 3 |}) as (Hdata & _).
  destruct (blok_fsync_choice (P := disk) disk_state0 (lit "/f") 1
              {| flags := 0; fh := 3 |}) as (_ & Hfull).
  split.
  - apply (Hdata eq_refl ltac:(discriminate) (inl ENOSYS) toy_world0);
      [reflexivity | apply enosys_answer].
  - apply (Hfull (or_introl eq_refl) (inl ENOSYS) disk_world0);
      [reflexivity | apply enosys_answer].
Defined.

(** Five bytes from offset 7 of "hello, world". *)
Lemma blok_read_spec_witness :
  (exists s',
     blok_read (P := disk) (lit "/f") (replicate 8 "x"%byte) 5 7
         {| flags := 0; fh := 3 |} disk_state0
       = Returns (5, lit "worldxxx") s' /\
     logfile (BLOK_DATA s') =
       [ {| log_filename := lit "/f"; log_offset := 7; log_size := 5 |} ]) /\
  (exists s',
     blok_read (P := toy) (lit "/f") (replicate 8 "x"%byte) 5 7
         {| flags := 0; fh := 3 |} toy_state0
       = Returns (- ENOSYS, replicate 8 "x"%byte) s' /\
     logfile (BLOK_DATA s') =
       [ {| log_filename := lit "/f"; log_offset := 7; log_size := 5 |} ]).
Proof.
  destruct (blok_read_spec (P := disk) disk_state0 (lit "/f") (replicate 8 "x"%byte) 5 7
              {| flags := 0; fh := 3 |}) as (Hok & _).
  destruct (blok_read_spec (P := toy) toy_state0 (lit "/f") (replicate 8 "x"%byte) 5 7
              {| flags := 0; fh := 3 |}) as (_ & Hfail).
  split.
  - destruct (Hok (lit "world") disk_world0) as (s' & Hrun & (_ & Hlog & _) & _).
    + reflexivity.
    + simpl. lia.
    + unfold INT_MAX. simpl. lia.
    + exists s'. split; [exact Hrun | exact Hlog].
  - destruct (Hfail ENOSYS toy_world0) as (s' & Hrun & (_ & Hlog & _) & _).
    + reflexivity.
    + unfold ENOSYS, INT_MAX. lia.
    + exists s'. split; [exact Hrun | exact Hlog].
Defined.

Lemma blok_write_spec_witness :
  (exists s',
     blok_write (P := disk) (lit "/f") (lit "HELLO!") 5 0 {| flags := 0; fh := 3 |}
         disk_state0 = Returns 5 s' /\
     disk_content (os s') = lit "HELLO, world") /\
  (exists s',
     blok_write (P := toy) (lit "/f") (lit "HELLO!") 5 0 {| flags := 0; fh := 3 |}
         toy_state0 = Returns (- ENOSYS) s').
Proof.
  destruct (blok_write_spec (P := disk) disk_state0 (lit "/f") (lit "HELLO!") 5 0
              {| flags := 0; fh := 3 |}) as (Hok & _).
  { simpl. lia. }
  destruct (blok_write_spec (P := toy) toy_state0 (lit "/f") (lit "HELLO!") 5 0
              {| flags := 0; fh := 3 |}) as (_ & Hfail).
  { simpl. lia. }
  split; eexists.
  - split.
    + eapply (Hok 5); [reflexivity|]. unfold INT_MAX. lia.
    + reflexivity.
  - eapply (Hfail ENOSYS); [reflexivity|]. unfold ENOSYS, INT_MAX. lia.
Defined.

Lemma blok_open_write_release_witness :
  calls_of (P := disk) disk_state0
    (bind (blok_open (P := disk) (lit "/f") {| flags := O_WRONLY; fh := 0 |}) (fun o =>
     bind (blok_write (lit "/f") (lit "HELLO!") 5 0 (snd o)) (fun n =>
     bind (blok_release (lit "/f") (snd o)) (fun rc =>
     ret (fst o, n, rc)))) disk_state0)
  = [ Open (lit "/srv/f") O_WRONLY None; Pwrite 3 (lit "HELLO") 5 0; Close 3 ].
Proof.
  apply (blok_open_write_release (P := disk) disk_state0 (lit "/f")
           {| flags := O_WRONLY; fh := 0 |} (lit "HELLO!") 5 0 3 disk_world0).
  - apply disk_path_fits. reflexivity.
  - reflexivity.
  - unfold INT_MAX. lia.
  - simpl. lia.
Defined.

Lemma blok_opendir_spec_witness :
  (exists s',
     blok_opendir (P := disk) (lit "/d") {| flags := 0; fh := 0 |} disk_state0 =
       Returns (0, {| flags := 0; fh := 4096 |}) s') /\
  (exists s',
     blok_opendir (P := toy) (lit "/d") {| flags := 0; fh := 77 |} toy_state0 =
       Returns (- ENOSYS, {| flags := 0; fh := 0 |}) s').
Proof.
  destruct (blok_opendir_spec (P := disk) disk_state0 (lit "/d") {| flags := 0; fh := 0 |})
    as (Hok & _).
  { apply disk_path_fits. reflexivity. }
  destruct (blok_opendir_spec (P := toy) toy_state0 (lit "/d") {| flags := 0; fh := 77 |})
    as (_ & Hfail).
  { apply toy_path_fits. reflexivity. }
  split; eexists.
  - eapply (Hok 4096); [reflexivity|]. unfold SIZE_MAX. lia.
  - eapply (Hfail ENOSYS); [reflexivity|]. unfold ENOSYS, INT_MAX. lia.
Defined.

Lemma blok_directory_listing_witness :
  exists s',
    bind (blok_opendir (P := disk) (lit "/d") {| flags := 0; fh := 0 |}) (fun o =>
    bind (blok_readdir 2 (lit "/d") [] fill_dir 0 (snd o)) (fun l =>
    bind (blok_releasedir (lit "/d") (snd o)) (fun rc =>
    ret (fst o, l, rc)))) disk_state0
    = Returns (0, (0, [lit "."; lit "notes"]), 0) s'.
Proof.
  destruct (blok_directory_listing (P := disk) disk_state0 (lit "/d")
              {| flags := 0; fh := 0 |} 2 4096
              {| d_ino := 31; d_name := lit "." |}
              [ {| d_ino := 32; d_name := lit "notes" |} ]
              {| disk_content := lit "hello, world"; disk_stream := disk_entries |}
              {| disk_content := lit "hello, world"; disk_stream := [] |})
    as (s' & Hrun & _).
  - apply disk_path_fits. reflexivity.
  - reflexivity.
  - unfold SIZE_MAX. lia.
  - simpl. eexists. split; [reflexivity|].
    eexists. split; [reflexivity|]. reflexivity.
  - simpl. lia.
  - exists s'. exact Hrun.
Defined.


(** A callback with no room at all: the first entry is read and lost. *)
Lemma blok_readdir_consumes_refused_witness :
  blok_readdir (P := toy) 1 (lit "/d") [] (fill_dir_bounded 0) 0 toy_dir_handle
      toy_state0 =
    Returns (- ENOMEM, [])
      (called (P := toy) (Readdir 7) 0
         {| toy_files := [lit "/srv/f"];
            toy_links := [(lit "/srv/l", lit "target-of-link")];
            toy_fds := [];
            toy_dirs := [(7, tail toy_entries)] |}
         toy_state0).
Proof.
  apply (blok_readdir_consumes_refused (P := toy) toy_state0 0 (lit "/d") [] []
           (fill_dir_bounded 0) 0 toy_dir_handle
           {| d_ino := 11; d_name := lit "a" |} 1).
  - reflexivity.
  - reflexivity.
  - discriminate.
Defined.

Lemma toy_long_path_does_not_fit :
  ~ path_fits (P := toy) toy_state0 (replicate 4092 "a"%byte).
Proof.
  unfold path_fits. intros H%Nat.ltb_lt. vm_compute in H. discriminate H.
Defined.

(** A path of 4092 bytes under the root /srv needs 4097. *)
Lemma blok_long_path_undefined_witness :
  blok_getattr (P := toy) (replicate 4092 "a"%byte) toy_state0 = Undefined /\
  blok_open (P := toy) (replicate 4092 "a"%byte) {| flags := 0; fh := 0 |} toy_state0
    = Undefined /\
  blok_rename (P := toy) (lit "/f") (replicate 4092 "a"%byte) toy_state0 = Undefined.
Proof.
  destruct (blok_long_path_undefined (P := toy) toy_state0 (replicate 4092 "a"%byte)
              toy_long_path_does_not_fit)
    as (Hgetattr & _ & _ & _ & _ & _ & _ & _ & Hrename & _ & _ & _ & _ & _ & _ & Hopen & _).
  split; [exact Hgetattr|]. split; [apply Hopen | apply Hrename].
Defined.

Lemma blok_handlers_keep_session_witness :
  exists s',
    blok_mknod (P := toy) (lit "/new") 33188 0 toy_state0 = Returns 0 s' /\
    BLOK_DATA s' = BLOK_DATA toy_state0.
Proof.
  destruct (blok_handlers_keep_session (P := toy)) as (_ & _ & Hmknod & _).
  unfold keeps_session in Hmknod.
  eexists. split; [vm_compute; reflexivity|].
  apply (Hmknod (lit "/new") 33188 0 toy_state0 0). vm_compute. reflexivity.
Defined.

(** blok -f /data /mnt: [fuse_main] receives blok -f /mnt and the root
    /abs/data. *)
Lemma main_hands_over_witness :
  main toy_startup [lit "blok"; lit "-f"; lit "/data"; lit "/mnt"] =
    Exited (fuse_main toy_startup [lit "blok"; lit "-f"; lit "/mnt"]
              (Some (lit "/abs/data"))).
Proof.
  apply (main_hands_over toy_startup [lit "blok"; lit "-f"] (lit "/data") (lit "/mnt"));
    try reflexivity; discriminate.
Defined.

Lemma main_usage_witness :
  main toy_startup [lit "blok"; lit "/data"] = Aborted /\
  main toy_startup [lit "blok"; lit "/data"; lit "-f"] = Aborted.
Proof.
  split.
  - apply main_usage. left. simpl. lia.
  - apply main_usage. right.
    exists [lit "blok"], (lit "/data"), (lit "-f").
    split; [reflexivity|]. right. reflexivity.
Defined.

Lemma main_startup_failure_witness :
  main {| malloc_ok := false; realpath := fun p => Some p; fopen_ok := true;
          fuse_main := fun _ _ => 0 |}
       [lit "blok"; lit "/data"; lit "/mnt"] = Aborted /\
  main {| malloc_ok := true; realpath := fun p => Some p; fopen_ok := false;
          fuse_main := fun _ _ => 0 |}
       [lit "blok"; lit "/data"; lit "/mnt"] = Exited EXIT_FAILURE.
Proof.
  split.
  - apply (main_startup_failure
             {| malloc_ok := false; realpath := fun p => Some p; fopen_ok := true;
                fuse_main := fun _ _ => 0 |}
             [lit "blok"] (lit "/data") (lit "/mnt"));
      try reflexivity; discriminate.
  - apply (main_startup_failure
             {| malloc_ok := true; realpath := fun p => Some p; fopen_ok := false;
                fuse_main := fun _ _ => 0 |}
             [lit "blok"] (lit "/data") (lit "/mnt"));
      try reflexivity; discriminate.
Defined.

(** The attribute read into a buffer of 6, probed with size 0, and refused
    by a kernel without extended attributes. *)
Lemma blok_xattr_operations_witness :
  (exists s',
     blok_getxattr (P := disk) (lit "/f") (lit "user.color") (replicate 6 "x"%byte) 6
         disk_state0 = Returns (4, lit "bluexx") s') /\
  (exists s',
     blok_getxattr (P := disk) (lit "/f") (lit "user.color") [] 0 disk_state0
       = Returns (4, []) s') /\
  (exists s',
     blok_setxattr (P := disk) (lit "/f") (lit "user.color") (lit "red") 3 0 disk_state0
       = Returns 0 s') /\
  (exists s',
     blok_removexattr (P := toy) (lit "/f") (lit "user.color") toy_state0
       = Returns (- ENOSYS) s') /\
  (exists s',
     blok_listxattr (P := toy) (lit "/f") (replicate 6 "x"%byte) 6 toy_state0
       = Returns (- ENOSYS, replicate 6 "x"%byte) s').
Proof.
  destruct (blok_xattr_operations (P := disk) disk_state0 (lit "/f"))
    as (Hset & _ & Hget & _).
  { apply disk_path_fits. reflexivity. }
  destruct (blok_xattr_operations (P := toy) toy_state0 (lit "/f"))
    as (_ & Hremove & _ & Hlist).
  { apply toy_path_fits. reflexivity. }
  split; [|split; [|split; [|split]]]; eexists.
  - apply (Hget (lit "user.color") (replicate 6 "x"%byte) 6 (inr (lit "blue")) disk_world0);
      [reflexivity | exact I |].
    intros v [= <-]. split; [unfold INT_MAX; simpl; lia | intros _; simpl; lia].
  - apply (Hget (lit "user.color") [] 0 (inr (lit "blue")) disk_world0);
      [reflexivity | exact I |].
    intros v [= <-]. split; [unfold INT_MAX; simpl; lia | intros H; contradiction].
  - apply (Hset (lit "user.color") (lit "red") 3 0 (inr tt) disk_world0);
      [simpl; lia | reflexivity | exact I].
  - apply (Hremove (lit "user.color") (inl ENOSYS) toy_world0);
      [reflexivity | apply enosys_answer].
  - apply (Hlist (replicate 6 "x"%byte) 6 (inl ENOSYS) toy_world0);
      [reflexivity | apply enosys_answer | discriminate].
Defined.

End MoreRuns.
